(** * FirstConsistentlyInteractiveDetector

    A shallow embedding of [src/firstConsistentlyInteractiveDetector.js]
    (the tti-polyfill scheduler) and the properties of its scheduling
    protocol.

    Conventions of the embedding.
    - A JavaScript number that holds a timestamp in milliseconds is an
      integer ([Z]); the one special value the class uses, [-Infinity]
      (the initial [_timerActivationTime]), is kept apart in [number].
      Fractions of a millisecond and [NaN] are outside the model.
    - [null] is [None].  A value tested for truthiness ([if (x)], [x || y])
      is truthy when it is a number different from [0].
    - The detector object, the host's table of armed timeouts, the promises
      handed out and the diagnostics written by [log] live in one [World],
      threaded through a small state-and-exception monad [M].
    - What the host answers when asked ([performance.now()],
      [performance.timing], [window.chrome.loadTimes], [document.readyState])
      is an [Env], fixed for the duration of one handler except for the
      clock, which may advance between two reads.
    - The two functions imported from [firstConsistentlyInteractiveCore.js]
      are the fields of the class [Core], a parameter of the development. *)

From stdpp Require Import gmap strings list fin_maps.
From Stdlib Require Import ZArith Lia Sorted.

Open Scope Z_scope.

(** ** Values *)

(** A number that may be [-Infinity]. *)
Inductive number : Type :=
| NegInfinity
| Num (z : Z).

(** [a > b] on numbers, as JavaScript evaluates it. *)
Definition number_gt (a b : number) : bool :=
  match a, b with
  | NegInfinity, _ => false
  | Num _, NegInfinity => true
  | Num x, Num y => y <? x
  end.

(** [a <= b] as a proposition, for stating orderings. *)
Definition number_le (a b : number) : Prop :=
  match a, b with
  | NegInfinity, _ => True
  | Num _, NegInfinity => False
  | Num x, Num y => x <= y
  end.

(** Truthiness of a [number|null]: [null] and [0] are falsy. *)
Definition truthy (v : option Z) : bool :=
  match v with
  | Some z => negb (z =? 0)
  | None => false
  end.

(** [a || b] on [number|null] operands. *)
Definition js_or (a b : option Z) : option Z :=
  if truthy a then a else b.

(** An entry of the resource-timing log [_networkRequests]. *)
Record NetworkRequest : Type := { req_start : Z; req_end : Z }.

(** A long task handed to the core (the detector always passes [[]]). *)
Record LongTask : Type := { task_start : Z; task_end : Z }.

(** ** A JavaScript [Map] with string keys

    Insertion order is observable through [values()], so the map is an
    association list: [set] keeps the position of a key that is already
    there, [delete] removes the entry of the key. *)
Module JSMap.

Abbreviation t V := (list (string * V)).

Definition empty {V} : t V := [].

Fixpoint get {V} (k : string) (m : t V) : option V :=
  match m with
  | [] => None
  | (k', v) :: m' => if decide (k = k') then Some v else get k m'
  end.

Fixpoint set {V} (k : string) (v : V) (m : t V) : t V :=
  match m with
  | [] => [(k, v)]
  | (k', v') :: m' =>
      if decide (k = k') then (k, v) :: m' else (k', v') :: set k v m'
  end.

Fixpoint delete {V} (k : string) (m : t V) : t V :=
  match m with
  | [] => []
  | (k', v') :: m' =>
      if decide (k = k') then m' else (k', v') :: delete k m'
  end.

Definition size {V} (m : t V) : nat := length m.

Definition keys {V} (m : t V) : list string := m.*1.

Definition values {V} (m : t V) : list V := m.*2.

(** Keys of a [Map] are unique. *)
Definition wf {V} (m : t V) : Prop := NoDup (keys m).

End JSMap.

(** ** The detector object *)

Record Detector : Type := mkDetector {
  _useMutationObserver : bool;
  _minValue : option Z;
  _networkRequests : list NetworkRequest;
  _incompleteJSInitiatedRequestStartTimes : JSMap.t Z;
  _timerId : option nat;
  _timerActivationTime : number;
  _scheduleTimerTasks : bool;
  (** [null], or the [resolve] function of the promise with this index. *)
  _firstConsistentlyInteractiveResolver : option nat
}.

(** The constructor's [config] argument. *)
Record Config : Type := {
  config_useMutationObserver : bool;
  config_minValue : option Z
}.

Definition set_minValue (v : option Z) (d : Detector) : Detector :=
  mkDetector (_useMutationObserver d) v (_networkRequests d)
    (_incompleteJSInitiatedRequestStartTimes d) (_timerId d)
    (_timerActivationTime d) (_scheduleTimerTasks d)
    (_firstConsistentlyInteractiveResolver d).

Definition set_requests (m : JSMap.t Z) (d : Detector) : Detector :=
  mkDetector (_useMutationObserver d) (_minValue d) (_networkRequests d)
    m (_timerId d) (_timerActivationTime d) (_scheduleTimerTasks d)
    (_firstConsistentlyInteractiveResolver d).

Definition set_timerId (i : option nat) (d : Detector) : Detector :=
  mkDetector (_useMutationObserver d) (_minValue d) (_networkRequests d)
    (_incompleteJSInitiatedRequestStartTimes d) i
    (_timerActivationTime d) (_scheduleTimerTasks d)
    (_firstConsistentlyInteractiveResolver d).

Definition set_timerActivationTime (t : number) (d : Detector) : Detector :=
  mkDetector (_useMutationObserver d) (_minValue d) (_networkRequests d)
    (_incompleteJSInitiatedRequestStartTimes d) (_timerId d)
    t (_scheduleTimerTasks d)
    (_firstConsistentlyInteractiveResolver d).

Definition set_scheduleTimerTasks (b : bool) (d : Detector) : Detector :=
  mkDetector (_useMutationObserver d) (_minValue d) (_networkRequests d)
    (_incompleteJSInitiatedRequestStartTimes d) (_timerId d)
    (_timerActivationTime d) b
    (_firstConsistentlyInteractiveResolver d).

Definition set_resolver (r : option nat) (d : Detector) : Detector :=
  mkDetector (_useMutationObserver d) (_minValue d) (_networkRequests d)
    (_incompleteJSInitiatedRequestStartTimes d) (_timerId d)
    (_timerActivationTime d) (_scheduleTimerTasks d) r.

(** ** The host *)

Record PerformanceTiming : Type := {
  navigationStart : Z;
  (** [0] until the DOMContentLoaded handlers have run. *)
  domContentLoadedEventEnd : Z
}.

Record Env : Type := {
  performance_timing : PerformanceTiming;
  (** The value of the [k]-th read of [performance.now()]. *)
  performance_now : nat -> Z;
  (** [window.chrome && window.chrome.loadTimes]: when available,
      [loadTimes().firstPaintTime], in whole seconds. *)
  chrome_loadTimes : option Z;
  (** [document.readyState == 'complete']. *)
  readyState_complete : bool
}.

(** The messages the class passes to [log], in source order. *)
Inductive LogMessage : Type :=
| LogEnabling
| LogMustStartFirst
| LogAttemptReschedule (earliestTime : Z)
| LogPreviousActivation (t : number)
| LogNoNeedToPostpone
| LogRescheduled (earliestTime : Z)
| LogDisabling
| LogStartingRequest (requestId : string)
| LogCompletedRequest (requestId : string)
| LogActiveXHRs (n : nat)
| LogChecking
| LogNoUsableMinValue
| LogParameters (navStart lastBusy searchStart : Z) (minValue : option Z)
    (currentTime : Z) (starts : list Z) (reqs : list NetworkRequest)
| LogCouldNotDetect.

(** What a handler does to the outside, in order. *)
Inductive Effect : Type :=
| ELog (m : LogMessage)
| EClearTimeout (id : option nat)
| ESetTimeout (id : nat) (delay : Z)
| ENewPromise (p : nat)
| EAddLoadListener
| ECallResolver (p : nat) (v : Z)
| EComputeLastBusy (starts : list Z) (reqs : list NetworkRequest)
| EComputeFCI (searchStart : Z) (minValue : option Z) (lastBusy currentTime : Z).

Record World : Type := mkWorld {
  det : Detector;
  (** Armed timeouts, [id ↦ delay]; every callback is
      [() => this._checkTTI()]. *)
  timers : gmap nat Z;
  nextTimerId : nat;
  (** The promises created so far: pending ([None]) or fulfilled. *)
  promises : list (option Z);
  (** How many ['load'] listeners [getFirstConsistentlyInteractive]
      has registered on [window]. *)
  loadListeners : nat;
  (** How many times the clock has been read. *)
  clockReads : nat;
  trace : list Effect
}.

Definition with_det (d : Detector) (w : World) : World :=
  mkWorld d (timers w) (nextTimerId w) (promises w) (loadListeners w)
    (clockReads w) (trace w).

(** ** The monad of handlers *)

Inductive JSError : Type := TypeError.

Inductive Completion (A : Type) : Type :=
| Normal (a : A)
| Throw (e : JSError).
Arguments Normal {A} a.
Arguments Throw {A} e.

Definition M (A : Type) : Type := Env -> World -> Completion A * World.

Definition ret {A} (a : A) : M A := fun _ w => (Normal a, w).

Definition bind {A B} (m : M A) (k : A -> M B) : M B :=
  fun env w =>
    match m env w with
    | (Normal a, w') => k a env w'
    | (Throw e, w') => (Throw e, w')
    end.

Declare Scope js_scope.
Delimit Scope js_scope with js.
Notation "x <- m ;; k" := (bind m (fun x => k))
  (at level 100, m at next level, right associativity) : js_scope.
Notation "m ;; k" := (bind m (fun _ => k))
  (at level 100, right associativity) : js_scope.
Open Scope js_scope.

Definition throw {A} (e : JSError) : M A := fun _ w => (Throw e, w).

Definition this : M Detector := fun _ w => (Normal (det w), w).

Definition update (f : Detector -> Detector) : M unit :=
  fun _ w => (Normal tt, with_det (f (det w)) w).

Definition ask : M Env := fun env w => (Normal env, w).

Definition emit (e : Effect) : M unit :=
  fun _ w =>
    (Normal tt,
     mkWorld (det w) (timers w) (nextTimerId w) (promises w)
       (loadListeners w) (clockReads w) (trace w ++ [e])).

Definition log (m : LogMessage) : M unit := emit (ELog m).

(** [performance.now()] *)
Definition now : M Z :=
  fun env w =>
    (Normal (performance_now env (clockReads w)),
     mkWorld (det w) (timers w) (nextTimerId w) (promises w)
       (loadListeners w) (S (clockReads w)) (trace w)).

(** [clearTimeout(id)]: [clearTimeout(null)] does nothing, as does the id of
    a timeout that has fired or was cleared already. *)
Definition clearTimeout (id : option nat) : M unit :=
  fun _ w =>
    (Normal tt,
     mkWorld (det w)
       (match id with Some i => delete i (timers w) | None => timers w end)
       (nextTimerId w) (promises w) (loadListeners w) (clockReads w)
       (trace w ++ [EClearTimeout id])).

(** [setTimeout(() => this._checkTTI(), delay)] *)
Definition setTimeout (delay : Z) : M nat :=
  fun _ w =>
    let id := nextTimerId w in
    (Normal id,
     mkWorld (det w) (<[id := delay]> (timers w)) (S id) (promises w)
       (loadListeners w) (clockReads w) (trace w ++ [ESetTimeout id delay])).

(** A promise fulfills once: resolving a settled promise changes nothing. *)
Definition resolvePromise (p : nat) (v : Z) (ps : list (option Z))
  : list (option Z) :=
  match ps !! p with
  | Some None => <[p := Some v]> ps
  | _ => ps
  end.

(** [new Promise(...)]: the index of the new, pending promise. *)
Definition newPromise : M nat :=
  fun _ w =>
    let p := length (promises w) in
    (Normal p,
     mkWorld (det w) (timers w) (nextTimerId w) (promises w ++ [None])
       (loadListeners w) (clockReads w) (trace w ++ [ENewPromise p])).

(** Calling the value stored in [_firstConsistentlyInteractiveResolver]:
    [null] is not a function. *)
Definition callResolver (r : option nat) (v : Z) : M unit :=
  match r with
  | None => throw TypeError
  | Some p =>
      fun _ w =>
        (Normal tt,
         mkWorld (det w) (timers w) (nextTimerId w)
           (resolvePromise p v (promises w))
           (loadListeners w) (clockReads w)
           (trace w ++ [ECallResolver p v]))
  end.

(** [window.addEventListener('load', () => this.startSchedulingTimerTasks())] *)
Definition addLoadListener : M unit :=
  fun _ w =>
    (Normal tt,
     mkWorld (det w) (timers w) (nextTimerId w) (promises w)
       (S (loadListeners w)) (clockReads w) (trace w ++ [EAddLoadListener])).

(** [a || b] on two numbers. *)
Definition js_or_num (a b : Z) : Z := if a =? 0 then b else a.

(** ** The imported core

    [firstConsistentlyInteractiveCore.js] is used through two functions. *)
Class Core : Type := {
  (** The last time more than two requests were in flight. *)
  computeLastKnownNetwork2Busy : list Z -> list NetworkRequest -> Z;
  (** The detection itself; its second argument is cast to a number by the
      caller but may be [null] at run time. *)
  computeFirstConsistentlyInteractive :
    Z -> option Z -> Z -> Z -> list LongTask -> option Z
}.

(** ** The class *)

Section Detector.

Context {core : Core}.

Definition callComputeLastBusy (starts : list Z) (reqs : list NetworkRequest)
  : M Z :=
  emit (EComputeLastBusy starts reqs) ;;
  ret (computeLastKnownNetwork2Busy starts reqs).

Definition callComputeFCI (searchStart : Z) (minValue : option Z)
    (lastBusy currentTime : Z) : M (option Z) :=
  emit (EComputeFCI searchStart minValue lastBusy currentTime) ;;
  ret (computeFirstConsistentlyInteractive
         searchStart minValue lastBusy currentTime []).

(** [constructor(config = {})]; [_registerListeners] only hands the two
    request callbacks to [patchFetch]. *)
Definition constructor (config : Config) : Detector :=
  mkDetector (config_useMutationObserver config)
    (js_or (config_minValue config) None)
    [] JSMap.empty None NegInfinity false None.

Definition newWorld (config : Config) : World :=
  mkWorld (constructor config) ∅ 0%nat [] 0%nat 0%nat [].

Definition rescheduleTimer (earliestTime : Z) : M unit :=
  d <- this ;;
  if negb (_scheduleTimerTasks d) then
    log LogMustStartFirst
  else
    log (LogAttemptReschedule earliestTime) ;;
    log (LogPreviousActivation (_timerActivationTime d)) ;;
    if number_gt (_timerActivationTime d) (Num earliestTime) then
      log LogNoNeedToPostpone
    else
      clearTimeout (_timerId d) ;;
      t <- now ;;
      id <- setTimeout (earliestTime - t) ;;
      update (set_timerId (Some id)) ;;
      update (set_timerActivationTime (Num earliestTime)) ;;
      log (LogRescheduled earliestTime).

Definition startSchedulingTimerTasks : M unit :=
  log LogEnabling ;;
  update (set_scheduleTimerTasks true) ;;
  rescheduleTimer 0.

Definition getFirstConsistentlyInteractive : M nat :=
  p <- newPromise ;;
  update (set_resolver (Some p)) ;;
  env <- ask ;;
  (if readyState_complete env
   then startSchedulingTimerTasks
   else addLoadListener) ;;
  ret p.

Definition setMinValue (minValue : Z) : M unit :=
  update (set_minValue (Some minValue)).

(** The body is empty: the patched fetch is left in place. *)
Definition _unregisterListeners : M unit := ret tt.

Definition disable : M unit :=
  log LogDisabling ;;
  d <- this ;;
  clearTimeout (_timerId d) ;;
  update (set_scheduleTimerTasks false) ;;
  _unregisterListeners.

Definition _beforeJSInitiatedRequestCallback (requestId : string) : M unit :=
  log (LogStartingRequest requestId) ;;
  t <- now ;;
  update (fun d =>
    set_requests
      (JSMap.set requestId t (_incompleteJSInitiatedRequestStartTimes d)) d) ;;
  d <- this ;;
  log (LogActiveXHRs (JSMap.size (_incompleteJSInitiatedRequestStartTimes d))).

Definition _afterJSInitiatedRequestCallback (requestId : string) : M unit :=
  log (LogCompletedRequest requestId) ;;
  update (fun d =>
    set_requests
      (JSMap.delete requestId (_incompleteJSInitiatedRequestStartTimes d)) d) ;;
  d <- this ;;
  log (LogActiveXHRs (JSMap.size (_incompleteJSInitiatedRequestStartTimes d))).

Definition _getMinValue : M (option Z) :=
  d <- this ;;
  if truthy (_minValue d) then ret (_minValue d)
  else
    env <- ask ;;
    let timing := performance_timing env in
    if negb (domContentLoadedEventEnd timing =? 0)
    then ret (Some (domContentLoadedEventEnd timing - navigationStart timing))
    else ret None.

(** The getter [_incompleteRequestStarts]: a fresh array of the values. *)
Definition _incompleteRequestStarts : M (list Z) :=
  d <- this ;;
  ret (JSMap.values (_incompleteJSInitiatedRequestStartTimes d)).

(** [const firstPaint] of [_checkTTI]: not available outside Chrome. *)
Definition firstPaint (env : Env) : Z :=
  match chrome_loadTimes env with
  | Some firstPaintTime =>
      firstPaintTime * 1000 - navigationStart (performance_timing env)
  | None => 0
  end.

(** [const searchStart] of [_checkTTI]. *)
Definition searchStart (env : Env) : Z :=
  js_or_num (firstPaint env)
    (domContentLoadedEventEnd (performance_timing env)
     - navigationStart (performance_timing env)).

Definition _checkTTI : M unit :=
  log LogChecking ;;
  env <- ask ;;
  let navStart := navigationStart (performance_timing env) in
  starts <- _incompleteRequestStarts ;;
  d <- this ;;
  lastBusy <- callComputeLastBusy starts (_networkRequests d) ;;
  let searchStart := searchStart env in
  minValue <- _getMinValue ;;
  currentTime <- now ;;
  match minValue with
  | None =>
      log LogNoUsableMinValue ;;
      rescheduleTimer (Z.max (lastBusy + 5000) (currentTime + 1000))
  | Some _ => ret tt
  end ;;
  starts' <- _incompleteRequestStarts ;;
  d' <- this ;;
  (* the nine [log] calls that print the parameters, as one entry *)
  log (LogParameters navStart lastBusy searchStart minValue currentTime
         starts' (_networkRequests d')) ;;
  maybeFCI <- callComputeFCI searchStart minValue lastBusy currentTime ;;
  match maybeFCI with
  | Some fci =>
      if negb (fci =? 0) then
        d'' <- this ;;
        callResolver (_firstConsistentlyInteractiveResolver d'') fci ;;
        disable
      else ret tt
  | None => ret tt
  end ;;
  log LogCouldNotDetect ;;
  t <- now ;;
  rescheduleTimer (t + 1000).

(** ** The event loop

    What can happen to a detector: a call of one of its methods by the
    page, by the patched fetch or by a test, the host running the callback
    of an armed timeout, and the host dispatching ['load']. *)
Inductive Call : Type :=
| CallGetFirstConsistentlyInteractive
| CallStartSchedulingTimerTasks
| CallSetMinValue (minValue : Z)
| CallRescheduleTimer (earliestTime : Z)
| CallDisable
| CallBeforeRequest (requestId : string)
| CallAfterRequest (requestId : string)
| CallCheckTTI
| TimerFires (id : nat)
| LoadEvent.

(** A timeout that fires leaves the host's table, then runs its callback;
    an id that is not armed never fires. *)
Definition timerFires (id : nat) : M unit :=
  fun env w =>
    match timers w !! id with
    | Some _ =>
        _checkTTI env
          (mkWorld (det w) (delete id (timers w)) (nextTimerId w)
             (promises w) (loadListeners w) (clockReads w) (trace w))
    | None => (Normal tt, w)
    end.

Fixpoint repeatM (n : nat) (m : M unit) : M unit :=
  match n with
  | O => ret tt
  | S n' => m ;; repeatM n' m
  end.

(** ['load'] runs every listener registered so far. *)
Definition loadEvent : M unit :=
  fun env w => repeatM (loadListeners w) startSchedulingTimerTasks env w.

Definition handler (c : Call) : M unit :=
  match c with
  | CallGetFirstConsistentlyInteractive =>
      getFirstConsistentlyInteractive ;; ret tt
  | CallStartSchedulingTimerTasks => startSchedulingTimerTasks
  | CallSetMinValue v => setMinValue v
  | CallRescheduleTimer t => rescheduleTimer t
  | CallDisable => disable
  | CallBeforeRequest i => _beforeJSInitiatedRequestCallback i
  | CallAfterRequest i => _afterJSInitiatedRequestCallback i
  | CallCheckTTI => _checkTTI
  | TimerFires i => timerFires i
  | LoadEvent => loadEvent
  end.

(** One turn of the event loop; an exception ends the handler and is
    reported by the host, the world keeps what the handler did so far. *)
Definition step (env : Env) (c : Call) (w : World) : World :=
  snd (handler c env w).

Fixpoint run (evs : list (Env * Call)) (w : World) : World :=
  match evs with
  | [] => w
  | (env, c) :: evs' => run evs' (step env c w)
  end.

End Detector.

(** ** Reading the outcome of a handler *)

(** The world a handler leaves behind, and how it completed. *)
Definition exec {A} (m : M A) (env : Env) (w : World) : World :=
  snd (m env w).

Definition completion {A} (m : M A) (env : Env) (w : World) : Completion A :=
  fst (m env w).

(** Weakest precondition: [Q] after a normal completion, [E] after a throw. *)
Definition wp {A} (m : M A) (env : Env)
    (Q : A -> World -> Prop) (E : World -> Prop) (w : World) : Prop :=
  match m env w with
  | (Normal a, w') => Q a w'
  | (Throw _, w') => E w'
  end.

(** [w] with further entries in its trace. *)
Definition emits (es : list Effect) (w : World) : World :=
  mkWorld (det w) (timers w) (nextTimerId w) (promises w)
    (loadListeners w) (clockReads w) (trace w ++ es).

(** The host's table once [clearTimeout(id)] has run. *)
Definition cleared (id : option nat) (ts : gmap nat Z) : gmap nat Z :=
  match id with Some i => delete i ts | None => ts end.

(** The world after the arming branch of [rescheduleTimer]. *)
Definition armed (earliestTime : Z) (env : Env) (w : World) : World :=
  let delay := earliestTime - performance_now env (clockReads w) in
  mkWorld
    (set_timerActivationTime (Num earliestTime)
       (set_timerId (Some (nextTimerId w)) (det w)))
    (<[nextTimerId w := delay]> (cleared (_timerId (det w)) (timers w)))
    (S (nextTimerId w)) (promises w) (loadListeners w)
    (S (clockReads w))
    (trace w ++
       [ELog (LogAttemptReschedule earliestTime);
        ELog (LogPreviousActivation (_timerActivationTime (det w)));
        EClearTimeout (_timerId (det w));
        ESetTimeout (nextTimerId w) delay;
        ELog (LogRescheduled earliestTime)]).

(** The trace of the branch of [rescheduleTimer] that leaves the timer alone. *)
Definition ignoredLog (earliestTime : Z) (w : World) : list Effect :=
  [ELog (LogAttemptReschedule earliestTime);
   ELog (LogPreviousActivation (_timerActivationTime (det w)));
   ELog LogNoNeedToPostpone].

(** The value [minValue] of a detection attempt started in [w]. *)
Definition attemptMinValue (env : Env) (w : World) : option Z :=
  match completion _getMinValue env w with
  | Normal v => v
  | Throw _ => None
  end.

(** The value [lastBusy] of a detection attempt started in [w]. *)
Definition attemptLastBusy `{Core} (w : World) : Z :=
  computeLastKnownNetwork2Busy
    (JSMap.values (_incompleteJSInitiatedRequestStartTimes (det w)))
    (_networkRequests (det w)).

(** The value [maybeFCI] of a detection attempt started in [w]: what the
    core answers to the arguments [_checkTTI] hands it. *)
Definition attemptResult `{Core} (env : Env) (w : World) : option Z :=
  computeFirstConsistentlyInteractive
    (searchStart env) (attemptMinValue env w) (attemptLastBusy w)
    (performance_now env (clockReads w)) [].

(** ** Invariants and classes of events *)

(** The only timeout the host may hold is the one in [_timerId]. *)
Definition single_timer (w : World) : Prop :=
  forall i, is_Some (timers w !! i) -> _timerId (det w) = Some i.

(** Switched off, with the timeout of [_timerId] cleared. *)
Definition disabled (w : World) : Prop :=
  _scheduleTimerTasks (det w) = false /\
  forall i, _timerId (det w) = Some i -> timers w !! i = None.

(** Switched off and no timeout armed at all. *)
Definition quiescent (w : World) : Prop :=
  _scheduleTimerTasks (det w) = false /\ timers w = ∅.

(** The first [n] promises are [ps] and the stored resolver is none of
    theirs. *)
Definition frozen (ps : list (option Z)) (w : World) : Prop :=
  take (length ps) (promises w) = ps /\
  forall r, _firstConsistentlyInteractiveResolver (det w) = Some r ->
            (length ps <= r)%nat.


(** The world in which [getFirstConsistentlyInteractive] has created its
    promise and stored the resolver, before it looks at the document. *)
Definition promised (w : World) : World :=
  let p := length (promises w) in
  mkWorld (set_resolver (Some p) (det w)) (timers w) (nextTimerId w)
    (promises w ++ [None]) (loadListeners w) (clockReads w)
    (trace w ++ [ENewPromise p]).

(** The world in which one more ['load'] listener is registered. *)
Definition listening (w : World) : World :=
  mkWorld (det w) (timers w) (nextTimerId w) (promises w)
    (S (loadListeners w)) (clockReads w) (trace w ++ [EAddLoadListener]).

(** Events that run [startSchedulingTimerTasks]. *)
Definition enabling (c : Call) : bool :=
  match c with
  | CallGetFirstConsistentlyInteractive
  | CallStartSchedulingTimerTasks
  | LoadEvent => true
  | _ => false
  end.

(** Events that store a minimum value. *)
Definition setsMinValue (c : Call) : bool :=
  match c with
  | CallSetMinValue _ => true
  | _ => false
  end.

(** Events raised by the host rather than by a caller. *)
Definition hostDriven (c : Call) : bool :=
  match c with
  | TimerFires _ | LoadEvent => true
  | _ => false
  end.


(** [evs] holds only events that [ok] admits. *)
Definition admits (ok : Call -> bool) (evs : list (Env * Call)) : Prop :=
  Forall (fun ev => ok ev.2 = true) evs.

Definition anyCall (c : Call) : bool := true.

(** [I] survives every event that [ok] admits. *)
Definition stable `{Core} (ok : Call -> bool) (I : World -> Prop) : Prop :=
  forall env c w, ok c = true -> I w -> I (step env c w).

(** The world in which the host has taken timeout [i] off its table. *)
Definition fired (i : nat) (w : World) : World :=
  mkWorld (det w) (delete i (timers w)) (nextTimerId w) (promises w)
    (loadListeners w) (clockReads w) (trace w).


(** The worlds an instance can be in: those the event loop reaches from a
    fresh detector. *)
Definition reachable `{Core} (w : World) : Prop :=
  exists config evs, w = run evs (newWorld config).

(** ** Further invariants *)

(** A detector on which [startSchedulingTimerTasks] has never run. *)
Definition never_enabled (w : World) : Prop :=
  _scheduleTimerTasks (det w) = false /\ timers w = ∅ /\
  _timerId (det w) = None /\
  _timerActivationTime (det w) = NegInfinity.

(** The host holds at most the timeout of [_timerId], and none while the
    detector is switched off. *)
Definition timer_discipline (w : World) : Prop :=
  single_timer w /\
  (_scheduleTimerTasks (det w) = false -> timers w = ∅).

(** The stored resolver is the one of the promise created last. *)
Definition resolver_is_latest (w : World) : Prop :=
  match _firstConsistentlyInteractiveResolver (det w) with
  | None => promises w = []
  | Some p => length (promises w) = S p
  end.

(** A clock that does not run backwards. *)
Definition monotone_clock (env : Env) : Prop :=
  forall i j, (i <= j)%nat -> performance_now env i <= performance_now env j.

(** ** Scenarios *)

(** Modelled from the spec: [firstConsistentlyInteractiveCore.js] is not
    among the sources.  [sampleCore] follows the contract of the detection
    engine for a page that never has more than two requests in flight and
    no long task: the last busy time is the baseline [0], and the result is
    [max(searchStart, minValue)] once five seconds have passed since both
    the last busy time and the start of the search ([Math.max] reads [null]
    as [0]).  It is used for concrete runs only; every general statement
    below holds for any core. *)
Definition sampleCore : Core := {|
  computeLastKnownNetwork2Busy := fun _ _ => 0;
  computeFirstConsistentlyInteractive :=
    fun searchStart minValue lastBusy currentTime _ =>
      if currentTime - lastBusy <? 5000 then None
      else if currentTime - searchStart <? 5000 then None
      else Some (Z.max searchStart (default 0 minValue))
|}.

(** A page loaded at [navigationStart = 1000000] whose DOMContentLoaded
    handlers ended 400 ms later; the clock reads [t], [t + 1], ... *)
Definition loadedAt (t : Z) : Env := {|
  performance_timing :=
    {| navigationStart := 1000000; domContentLoadedEventEnd := 1000400 |};
  performance_now := fun k => t + Z.of_nat k;
  chrome_loadTimes := None;
  readyState_complete := true
|}.

(** The same page in Chrome before DOMContentLoaded has ended: first paint
    one second after [navigationStart], the document still loading. *)
Definition loadingAt (t : Z) : Env := {|
  performance_timing :=
    {| navigationStart := 1000000; domContentLoadedEventEnd := 0 |};
  performance_now := fun k => t + Z.of_nat k;
  chrome_loadTimes := Some 1001;
  readyState_complete := false
|}.

(** The same page outside Chrome before DOMContentLoaded has ended. *)
Definition loadingNoPaintAt (t : Z) : Env := {|
  performance_timing :=
    {| navigationStart := 1000000; domContentLoadedEventEnd := 0 |};
  performance_now := fun k => t + Z.of_nat k;
  chrome_loadTimes := None;
  readyState_complete := false
|}.

(** [new FirstConsistentlyInteractiveDetector()] *)
Definition noConfig : Config :=
  {| config_useMutationObserver := false; config_minValue := None |}.

(** The promise is requested on the loaded page: the detector is enabled
    and timeout [0] is armed for time [0]. *)
Definition started : World :=
  run (core := sampleCore)
    [(loadedAt 0, CallGetFirstConsistentlyInteractive)]
    (newWorld noConfig).

(** ... and the first check, one second later, finds no quiet window yet
    and arms timeout [1] for a second after. *)
Definition retried : World :=
  run (core := sampleCore) [(loadedAt 1000, TimerFires 0%nat)] started.

(** ... or the page disables the detector before any check. *)
Definition stopped : World :=
  run (core := sampleCore) [(loadedAt 10, CallDisable)] started.

(** The promise is requested while the document is loading and the page
    calls [startSchedulingTimerTasks] itself, before DOMContentLoaded has
    ended: timeout [0] is armed and a ['load'] listener is registered. *)
Definition startedEarly : World :=
  run (core := sampleCore)
    [(loadingAt 100, CallGetFirstConsistentlyInteractive);
     (loadingAt 200, CallStartSchedulingTimerTasks)]
    (newWorld noConfig).

(** One request in flight. *)
Definition requesting : World :=
  run (core := sampleCore) [(loadedAt 20, CallBeforeRequest "r1")] started.

(** The page starts the detector without asking for the promise. *)
Definition unrequested : World :=
  run (core := sampleCore)
    [(loadedAt 0, CallStartSchedulingTimerTasks)] (newWorld noConfig).

(** [new FirstConsistentlyInteractiveDetector({minValue: 20000})] *)
Definition config20s : Config :=
  {| config_useMutationObserver := false; config_minValue := Some 20000 |}.

(** ** Properties *)

Section Properties.

Context {core : Core}.

(** *** Rules of the weakest precondition *)

Lemma wp_normal {A} (m : M A) env Q E w a w' :
  m env w = (Normal a, w') -> Q a w' -> wp m env Q E w.
Proof. unfold wp. intros ->. auto. Qed.

Lemma wp_throws {A} (m : M A) env Q E w e w' :
  m env w = (Throw e, w') -> E w' -> wp m env Q E w.
Proof. unfold wp. intros ->. auto. Qed.

Lemma wp_bind {A B} (m : M A) (k : A -> M B) env Q E w :
  wp m env (fun a => wp (k a) env Q E) E w -> wp (bind m k) env Q E w.
Proof.
  unfold wp, bind. destruct (m env w) as [[a|e] w']; auto.
Qed.

Lemma wp_exec {A} (m : M A) env (I : World -> Prop) w :
  wp m env (fun _ => I) I w -> I (exec m env w).
Proof.
  unfold wp, exec. destruct (m env w) as [[a|e] w']; auto.
Qed.

Lemma wp_mono {A} (m : M A) env (Q Q' : A -> World -> Prop)
    (E E' : World -> Prop) w :
  wp m env Q E w ->
  (forall a w', Q a w' -> Q' a w') -> (forall w', E w' -> E' w') ->
  wp m env Q' E' w.
Proof.
  unfold wp. destruct (m env w) as [[a|e] w']; auto.
Qed.

(** *** [rescheduleTimer], branch by branch *)

Lemma rescheduleTimer_not_started env w t :
  _scheduleTimerTasks (det w) = false ->
  rescheduleTimer t env w = (Normal tt, emits [ELog LogMustStartFirst] w).
Proof.
  intros Hoff. unfold rescheduleTimer, bind, this, log, emit, emits.
  cbn. rewrite Hoff. reflexivity.
Qed.

Lemma rescheduleTimer_ignored env w t :
  _scheduleTimerTasks (det w) = true ->
  number_gt (_timerActivationTime (det w)) (Num t) = true ->
  rescheduleTimer t env w = (Normal tt, emits (ignoredLog t w) w).
Proof.
  intros Hon Hgt.
  unfold rescheduleTimer, bind, this, log, emit, emits, ignoredLog.
  cbn. rewrite Hon. cbn. rewrite Hgt. cbn.
  rewrite <- !app_assoc. reflexivity.
Qed.

Lemma rescheduleTimer_armed env w t :
  _scheduleTimerTasks (det w) = true ->
  number_gt (_timerActivationTime (det w)) (Num t) = false ->
  rescheduleTimer t env w = (Normal tt, armed t env w).
Proof.
  intros Hon Hgt.
  unfold rescheduleTimer, bind, this, log, emit, clearTimeout, now,
    setTimeout, update, armed, cleared.
  cbn. rewrite Hon. cbn. rewrite Hgt. cbn.
  rewrite <- !app_assoc. reflexivity.
Qed.

Lemma wp_rescheduleTimer t env Q E w :
  (_scheduleTimerTasks (det w) = false ->
   Q tt (emits [ELog LogMustStartFirst] w)) ->
  (_scheduleTimerTasks (det w) = true ->
   number_gt (_timerActivationTime (det w)) (Num t) = true ->
   Q tt (emits (ignoredLog t w) w)) ->
  (_scheduleTimerTasks (det w) = true ->
   number_gt (_timerActivationTime (det w)) (Num t) = false ->
   Q tt (armed t env w)) ->
  wp (rescheduleTimer t) env Q E w.
Proof.
  intros Hoff Hign Harm.
  destruct (_scheduleTimerTasks (det w)) eqn:Hon.
  - destruct (number_gt (_timerActivationTime (det w)) (Num t)) eqn:Hgt.
    + eapply wp_normal; [ apply rescheduleTimer_ignored | ]; auto.
    + eapply wp_normal; [ apply rescheduleTimer_armed | ]; auto.
  - eapply wp_normal; [ apply rescheduleTimer_not_started | ]; auto.
Qed.

Lemma number_gt_false_le a b : number_gt a b = false <-> number_le a b.
Proof.
  destruct a as [|x], b as [|y]; cbn; try (intuition congruence).
  rewrite Z.ltb_ge. reflexivity.
Qed.



(** Symbolic execution of a handler under [wp]: binds are split, the
    methods of the class are unfolded down to [rescheduleTimer], which is
    taken by its three branches, and tests are decided by cases. *)
Ltac world_simpl :=
  cbn [det timers nextTimerId promises loadListeners clockReads trace
       with_det emits armed fired
       _useMutationObserver _minValue _networkRequests
       _incompleteJSInitiatedRequestStartTimes _timerId _timerActivationTime
       _scheduleTimerTasks _firstConsistentlyInteractiveResolver
       set_minValue set_requests set_timerId set_timerActivationTime
       set_scheduleTimerTasks set_resolver] in *.

Ltac wp_prim := eapply wp_normal; [ reflexivity | world_simpl ].

Ltac wp_step :=
  lazymatch goal with
  | |- wp (bind _ _) _ _ _ _ => apply wp_bind
  | |- wp (let _ := _ in _) _ _ _ _ => cbn zeta
  | |- wp (rescheduleTimer _) _ _ _ _ =>
      apply wp_rescheduleTimer; [ intros ? | intros ? ? | intros ? ? ];
      world_simpl
  | |- wp (match ?x with _ => _ end) _ _ _ _ => destruct x eqn:?
  | |- wp (throw _) _ _ _ _ =>
      eapply wp_throws; [ reflexivity | world_simpl ]
  | |- wp (callResolver None _) _ _ _ _ =>
      eapply wp_throws; [ reflexivity | world_simpl ]
  | |- wp (callResolver (Some _) _) _ _ _ _ => wp_prim
  | |- wp (callResolver ?r _) _ _ _ _ => destruct r eqn:?
  | |- wp (ret _) _ _ _ _ => wp_prim
  | |- wp this _ _ _ _ => wp_prim
  | |- wp ask _ _ _ _ => wp_prim
  | |- wp (update _) _ _ _ _ => wp_prim
  | |- wp (emit _) _ _ _ _ => wp_prim
  | |- wp (log _) _ _ _ _ => wp_prim
  | |- wp now _ _ _ _ => wp_prim
  | |- wp (clearTimeout _) _ _ _ _ => wp_prim
  | |- wp (setTimeout _) _ _ _ _ => wp_prim
  | |- wp newPromise _ _ _ _ => wp_prim
  | |- wp addLoadListener _ _ _ _ => wp_prim
  | |- wp (callComputeLastBusy _ _) _ _ _ _ => unfold callComputeLastBusy
  | |- wp (callComputeFCI _ _ _ _) _ _ _ _ => unfold callComputeFCI
  | |- wp _incompleteRequestStarts _ _ _ _ => unfold _incompleteRequestStarts
  | |- wp _unregisterListeners _ _ _ _ => unfold _unregisterListeners
  | |- wp (setMinValue _) _ _ _ _ => unfold setMinValue
  | |- wp (_beforeJSInitiatedRequestCallback _) _ _ _ _ =>
      unfold _beforeJSInitiatedRequestCallback
  | |- wp (_afterJSInitiatedRequestCallback _) _ _ _ _ =>
      unfold _afterJSInitiatedRequestCallback
  | |- wp startSchedulingTimerTasks _ _ _ _ => unfold startSchedulingTimerTasks
  | |- wp getFirstConsistentlyInteractive _ _ _ _ =>
      unfold getFirstConsistentlyInteractive
  | |- wp disable _ _ _ _ => unfold disable
  | |- wp _getMinValue _ _ _ _ => unfold _getMinValue
  | |- wp _checkTTI _ _ _ _ => unfold _checkTTI
  end.

(** Branches whose tests contradict each other. *)
Ltac prune := try solve [ cbn [truthy negb] in *; congruence ].

Ltac wp_run := repeat wp_step; world_simpl; prune.

(** *** Postpone-only scheduling *)

Lemma rescheduleTimer_completes env w t :
  completion (rescheduleTimer t) env w = Normal tt.
Proof.
  unfold completion.
  destruct (_scheduleTimerTasks (det w)) eqn:Hon.
  - destruct (number_gt (_timerActivationTime (det w)) (Num t)) eqn:Hgt.
    + rewrite rescheduleTimer_ignored; auto.
    + rewrite rescheduleTimer_armed; auto.
  - rewrite rescheduleTimer_not_started; auto.
Qed.



(** C3, as the code has it.  While the detector is enabled,
    [rescheduleTimer(earliestTime)] is ignored only when [earliestTime] is
    strictly below [_timerActivationTime]: then the detector and the armed
    timeouts are unchanged.  Otherwise, equality included, the outstanding
    timeout is cleared, a new one is armed with delay
    [earliestTime - performance.now()], [_timerId] names it and
    [_timerActivationTime] becomes [earliestTime]. *)
Theorem rescheduleTimer_enabled env w (earliestTime : Z) :
  _scheduleTimerTasks (det w) = true ->
  let w' := exec (rescheduleTimer earliestTime) env w in
  completion (rescheduleTimer earliestTime) env w = Normal tt /\
  (~ number_le (_timerActivationTime (det w)) (Num earliestTime) ->
     det w' = det w /\ timers w' = timers w /\
     nextTimerId w' = nextTimerId w) /\
  (number_le (_timerActivationTime (det w)) (Num earliestTime) ->
     timers w' =
       <[nextTimerId w :=
           earliestTime - performance_now env (clockReads w)]>
         (cleared (_timerId (det w)) (timers w)) /\
     _timerId (det w') = Some (nextTimerId w) /\
     _timerActivationTime (det w') = Num earliestTime /\
     w' = armed earliestTime env w).
Proof.
  intros Hon w'. subst w'. unfold exec.
  split; [apply rescheduleTimer_completes |].
  destruct (number_gt (_timerActivationTime (det w)) (Num earliestTime))
    eqn:Hgt.
  - split.
    + intros _. rewrite rescheduleTimer_ignored by assumption. cbn. auto.
    + intros Hle. apply number_gt_false_le in Hle. congruence.
  - split.
    + intros Hnle. exfalso. apply Hnle, number_gt_false_le, Hgt.
    + intros _. rewrite rescheduleTimer_armed by assumption. cbn. auto.
Qed.

(** C8, as the code has it.  [startSchedulingTimerTasks] has no guard: it
    logs, sets [_scheduleTimerTasks] and calls [rescheduleTimer(0)] every
    time.  A timeout with target [0] is armed whenever
    [_timerActivationTime] is at most [0], as on a fresh detector; when it
    is above [0] the call only logs that there is no need to postpone, and
    leaves a detector that is already enabled as it is. *)
Theorem startSchedulingTimerTasks_reschedules env w :
  let w1 :=
    with_det (set_scheduleTimerTasks true (det w))
      (emits [ELog LogEnabling] w) in
  let w' := exec startSchedulingTimerTasks env w in
  completion startSchedulingTimerTasks env w = Normal tt /\
  _scheduleTimerTasks (det w') = true /\
  (number_le (_timerActivationTime (det w)) (Num 0) ->
     w' = armed 0 env w1 /\
     timers w' =
       <[nextTimerId w := 0 - performance_now env (clockReads w)]>
         (cleared (_timerId (det w)) (timers w)) /\
     _timerActivationTime (det w') = Num 0) /\
  (~ number_le (_timerActivationTime (det w)) (Num 0) ->
     w' = emits (ignoredLog 0 w1) w1 /\
     timers w' = timers w /\
     _timerId (det w') = _timerId (det w) /\
     _timerActivationTime (det w') = _timerActivationTime (det w) /\
     (_scheduleTimerTasks (det w) = true -> det w' = det w)) /\
  (_timerActivationTime (det w) = NegInfinity ->
     _timerId (det w') = Some (nextTimerId w) /\
     is_Some (timers w' !! nextTimerId w)).
Proof.
  intros w1 w'.
  assert (Hstep : startSchedulingTimerTasks env w = rescheduleTimer 0 env w1)
    by reflexivity.
  assert (Hon : _scheduleTimerTasks (det w1) = true) by reflexivity.
  assert (Hact : _timerActivationTime (det w1) = _timerActivationTime (det w))
    by reflexivity.
  subst w'. unfold exec, completion. rewrite Hstep.
  destruct (number_gt (_timerActivationTime (det w1)) (Num 0)) eqn:Hgt.
  - rewrite rescheduleTimer_ignored by assumption.
    rewrite Hact in Hgt.
    assert (Hnle : ~ number_le (_timerActivationTime (det w)) (Num 0)).
    { intros Hle. apply number_gt_false_le in Hle. congruence. }
    cbn. split; [reflexivity |]. split; [reflexivity |].
    split; [intros Hle; contradiction |].
    split.
    { intros _. repeat (split; [reflexivity |]).
      intros Hon'. destruct (det w). cbn in *. rewrite Hon'. reflexivity. }
    intros Hneg. rewrite Hneg in Hgt. discriminate.
  - rewrite rescheduleTimer_armed by assumption.
    rewrite Hact in Hgt. apply number_gt_false_le in Hgt.
    cbn. split; [reflexivity |]. split; [reflexivity |].
    split; [intros _; auto |].
    split; [intros Hnle; contradiction |].
    intros _. split; [reflexivity |].
    rewrite lookup_insert_eq. eauto.
Qed.

(** *** The map of in-flight requests *)

Lemma JSMap_get_None {V} (k : string) (m : JSMap.t V) :
  JSMap.get k m = None <-> k ∉ JSMap.keys m.
Proof.
  unfold JSMap.keys. induction m as [|[k' v] m IH]; cbn.
  - split; [intros _; apply not_elem_of_nil | reflexivity].
  - rewrite not_elem_of_cons. destruct (decide (k = k')) as [->|Hne].
    + split; [discriminate | intros [Hk _]; congruence].
    + rewrite IH. tauto.
Qed.

Lemma JSMap_get_delete_ne {V} (k id : string) (m : JSMap.t V) :
  k <> id -> JSMap.get k (JSMap.delete id m) = JSMap.get k m.
Proof.
  intros Hne. induction m as [|[k' v] m IH]; cbn; [reflexivity |].
  destruct (decide (id = k')) as [->|Hid]; cbn.
  - destruct (decide (k = k')); [contradiction | reflexivity].
  - destruct (decide (k = k')); [reflexivity | exact IH].
Qed.

Lemma JSMap_delete_absent {V} (id : string) (m : JSMap.t V) :
  JSMap.get id m = None -> JSMap.delete id m = m.
Proof.
  induction m as [|[k' v] m IH]; cbn; [reflexivity |].
  destruct (decide (id = k')); [discriminate |].
  intros Hm. rewrite IH by assumption. reflexivity.
Qed.

Lemma JSMap_keys_delete {V} (k id : string) (m : JSMap.t V) :
  k ∈ JSMap.keys (JSMap.delete id m) -> k ∈ JSMap.keys m.
Proof.
  unfold JSMap.keys. induction m as [|[k' v] m IH]; cbn; [auto |].
  destruct (decide (id = k')); cbn; rewrite !elem_of_cons; tauto.
Qed.

Lemma JSMap_wf_delete {V} (id : string) (m : JSMap.t V) :
  JSMap.wf m -> JSMap.wf (JSMap.delete id m).
Proof.
  unfold JSMap.wf. induction m as [|[k' v] m IH]; cbn; [auto |].
  unfold JSMap.keys in *. cbn. rewrite NoDup_cons. intros [Hk Hm].
  destruct (decide (id = k')); [assumption |].
  cbn. rewrite NoDup_cons. split; [| auto].
  intros Hin. apply Hk. eapply (JSMap_keys_delete k' id m), Hin.
Qed.

Lemma JSMap_get_delete_eq {V} (id : string) (m : JSMap.t V) :
  JSMap.wf m -> JSMap.get id (JSMap.delete id m) = None.
Proof.
  unfold JSMap.wf, JSMap.keys.
  induction m as [|[k' v] m IH]; cbn; [reflexivity |].
  rewrite NoDup_cons. intros [Hk Hm].
  destruct (decide (id = k')) as [->|Hne]; cbn.
  - apply JSMap_get_None. exact Hk.
  - destruct (decide (id = k')); [contradiction | auto].
Qed.

Lemma JSMap_size_delete {V} (id : string) (m : JSMap.t V) :
  (JSMap.size m - 1 <= JSMap.size (JSMap.delete id m) <= JSMap.size m)%nat.
Proof.
  unfold JSMap.size. induction m as [|[k' v] m IH]; cbn; [lia |].
  destruct (decide (id = k')); cbn; lia.
Qed.

Lemma filter_Forall_id {A} (P : A -> Prop) `{forall x, Decision (P x)}
    (l : list A) :
  Forall P l -> filter P l = l.
Proof.
  induction 1 as [|x l Hx Hl IH]; [reflexivity |].
  rewrite filter_cons_True by assumption. rewrite IH. reflexivity.
Qed.

Lemma JSMap_delete_filter {V} (id : string) (m : JSMap.t V) :
  JSMap.wf m ->
  JSMap.delete id m = filter (fun kv => kv.1 <> id) m.
Proof.
  unfold JSMap.wf, JSMap.keys.
  induction m as [|[k' v] m IH]; [reflexivity |].
  rewrite fmap_cons, NoDup_cons. intros [Hk Hm].
  cbn [JSMap.delete]. destruct (decide (id = k')) as [->|Hne].
  - rewrite filter_cons_False by (cbn; tauto).
    symmetry. apply filter_Forall_id.
    apply Forall_forall. intros [k v'] Hin Heq. cbn in Heq. subst k.
    apply Hk. apply list_elem_of_fmap. exists (k', v'). auto.
  - rewrite filter_cons_True by (cbn; congruence).
    rewrite IH by assumption. reflexivity.
Qed.

Lemma JSMap_keys_set {V} (k id : string) (v : V) (m : JSMap.t V) :
  k ∈ JSMap.keys (JSMap.set id v m) -> k = id \/ k ∈ JSMap.keys m.
Proof.
  unfold JSMap.keys. induction m as [|[k' v'] m IH]; cbn.
  - rewrite elem_of_cons. intros [->|Hin]; auto.
  - destruct (decide (id = k')) as [->|Hne]; cbn; rewrite !elem_of_cons.
    + tauto.
    + intros [->|Hin]; [tauto |]. destruct (IH Hin); auto.
Qed.

Lemma JSMap_wf_set {V} (id : string) (v : V) (m : JSMap.t V) :
  JSMap.wf m -> JSMap.wf (JSMap.set id v m).
Proof.
  unfold JSMap.wf. induction m as [|[k' v'] m IH]; cbn.
  - intros _. unfold JSMap.keys. cbn. apply NoDup_singleton.
  - unfold JSMap.keys in *. cbn. rewrite NoDup_cons. intros [Hk Hm].
    destruct (decide (id = k')) as [->|Hne]; cbn; rewrite NoDup_cons.
    + auto.
    + split; [| auto]. intros Hin.
      destruct (JSMap_keys_set k' id v m Hin); [congruence | contradiction].
Qed.

(** C9.  [_afterJSInitiatedRequestCallback(id)] never throws and only
    deletes the entry of [id] from the map of in-flight requests: at most
    one entry goes, every other key keeps its value and its place, and
    nothing else of the detector, the timeouts or the promises changes.
    For an unknown [id] the map is unchanged, and so it is when the call is
    repeated for the same [id]. *)
Theorem afterRequest_idempotent env env' w (requestId : string) :
  JSMap.wf (_incompleteJSInitiatedRequestStartTimes (det w)) ->
  let m := _incompleteJSInitiatedRequestStartTimes (det w) in
  let w' := exec (_afterJSInitiatedRequestCallback requestId) env w in
  let m' := _incompleteJSInitiatedRequestStartTimes (det w') in
  let w'' := exec (_afterJSInitiatedRequestCallback requestId) env' w' in
  completion (_afterJSInitiatedRequestCallback requestId) env w = Normal tt /\
  completion (_afterJSInitiatedRequestCallback requestId) env' w' = Normal tt /\
  (JSMap.size m - 1 <= JSMap.size m' <= JSMap.size m)%nat /\
  (forall k, k <> requestId -> JSMap.get k m' = JSMap.get k m) /\
  m' = filter (fun kv => kv.1 <> requestId) m /\
  JSMap.get requestId m' = None /\
  (JSMap.get requestId m = None -> m' = m) /\
  _incompleteJSInitiatedRequestStartTimes (det w'') = m' /\
  det w' = set_requests m' (det w) /\
  timers w' = timers w /\ promises w' = promises w /\
  JSMap.wf m'.
Proof.
  intros Hwf m w' m' w''.
  assert (Hm' : m' = JSMap.delete requestId m) by reflexivity.
  assert (Hm'' : _incompleteJSInitiatedRequestStartTimes (det w'')
                 = JSMap.delete requestId m') by reflexivity.
  split; [reflexivity |]. split; [reflexivity |].
  split; [rewrite Hm'; apply JSMap_size_delete |].
  split; [intros k Hk; rewrite Hm'; apply JSMap_get_delete_ne, Hk |].
  split; [rewrite Hm'; apply JSMap_delete_filter, Hwf |].
  split; [rewrite Hm'; apply JSMap_get_delete_eq, Hwf |].
  split; [intros Hnone; rewrite Hm'; apply JSMap_delete_absent, Hnone |].
  split.
  { rewrite Hm''. apply JSMap_delete_absent.
    rewrite Hm'. apply JSMap_get_delete_eq, Hwf. }
  split; [reflexivity |]. split; [reflexivity |]. split; [reflexivity |].
  rewrite Hm'. apply JSMap_wf_delete, Hwf.
Qed.

(** *** Invariants of the event loop *)

Lemma wp_timerFires i env Q E w :
  (timers w !! i = None -> Q tt w) ->
  (forall d, timers w !! i = Some d -> wp _checkTTI env Q E (fired i w)) ->
  wp (timerFires i) env Q E w.
Proof.
  intros Hnone Hsome. unfold wp, timerFires.
  destruct (timers w !! i) as [d|] eqn:Hi.
  - apply (Hsome d eq_refl).
  - apply Hnone. reflexivity.
Qed.

Lemma wp_repeatM (I : World -> Prop) (m : M unit) n env :
  (forall w, I w -> wp m env (fun _ => I) I w) ->
  forall w, I w -> wp (repeatM n m) env (fun _ => I) I w.
Proof.
  intros Hm. induction n as [|n IH]; intros w Hw; cbn [repeatM].
  - eapply wp_normal; [reflexivity | exact Hw].
  - apply wp_bind. eapply wp_mono; [apply Hm, Hw | | auto].
    intros u w' Hw'. cbn beta. apply IH, Hw'.
Qed.

Lemma wp_loadEvent (I : World -> Prop) env :
  (forall w, I w -> wp startSchedulingTimerTasks env (fun _ => I) I w) ->
  forall w, I w -> wp loadEvent env (fun _ => I) I w.
Proof.
  intros Hm w Hw. unfold loadEvent.
  exact (wp_repeatM I startSchedulingTimerTasks (loadListeners w) env Hm w Hw).
Qed.

Lemma stable_intro (ok : Call -> bool) (I : World -> Prop) :
  (forall env c w, ok c = true -> I w ->
     wp (handler c) env (fun _ => I) I w) ->
  stable ok I.
Proof.
  intros Hwp env c w Hok Hw. unfold step.
  apply (wp_exec (handler c) env I w), Hwp; assumption.
Qed.

Lemma run_stable (ok : Call -> bool) (I : World -> Prop) :
  stable ok I ->
  forall evs w, admits ok evs -> I w -> I (run evs w).
Proof.
  intros Hst. induction evs as [|[env c] evs IH]; intros w Hok Hw; cbn.
  - exact Hw.
  - inversion Hok as [|ev evs' Hc Hrest]; subst.
    apply IH; [exact Hrest |]. apply Hst; assumption.
Qed.

(** Reduces the stability of [I] to the handlers, one method at a time;
    [leaf] closes what symbolic execution leaves. *)
Ltac stable_by leaf :=
  apply stable_intro;
  let env := fresh "env" in
  let c := fresh "c" in
  let w := fresh "w" in
  let Hok := fresh "Hok" in
  let Hw := fresh "Hw" in
  intros env c w Hok Hw;
  destruct c; try discriminate Hok; cbn [handler];
  lazymatch goal with
  | |- wp (timerFires _) _ _ _ _ =>
      apply wp_timerFires; [ intros ?; exact Hw | intros ? ? ];
      wp_run; cbn beta in *; world_simpl; leaf
  | |- wp loadEvent _ _ _ _ =>
      revert w Hw; apply wp_loadEvent; intros w Hw;
      wp_run; cbn beta in *; world_simpl; leaf
  | |- _ => wp_run; cbn beta in *; world_simpl; leaf
  end.

Lemma minValue_stable (v : option Z) :
  stable (fun c => negb (setsMinValue c))
         (fun w => _minValue (det w) = v).
Proof.
  stable_by ltac:(congruence).
Qed.

Ltac quiescent_leaf :=
  unfold quiescent in *; world_simpl; unfold cleared in *;
  repeat match goal with H : _ /\ _ |- _ => destruct H end;
  repeat match goal with
         | H : timers _ = ∅ |- _ => rewrite H
         | |- context [match ?x with Some _ => _ | None => _ end] => destruct x
         end;
  rewrite ?delete_empty; split; congruence.

Lemma quiescent_stable :
  stable (fun c => negb (enabling c)) quiescent.
Proof.
  stable_by quiescent_leaf.
Qed.

Ltac split_hyps :=
  repeat match goal with H : _ /\ _ |- _ => destruct H end.

Ltac single_timer_leaf :=
  unfold single_timer in *; world_simpl; unfold cleared in *;
  let i := fresh "i" in
  let d := fresh "d" in
  let Hi := fresh "Hi" in
  intros i [d Hi];
  repeat match type of Hi with
         | context [match ?x with Some _ => _ | None => _ end] =>
             destruct x eqn:?
         | (<[_:=_]> _) !! _ = Some _ =>
             apply lookup_insert_Some in Hi;
             destruct Hi as [[? ?]|[? Hi]]; [ congruence | ]
         | (delete _ _) !! _ = Some _ =>
             apply lookup_delete_Some in Hi; destruct Hi as [? Hi]
         end;
  match goal with
  | Hw : forall j, is_Some _ -> _ |- _ =>
      specialize (Hw i (ex_intro _ d Hi)); congruence
  end.

Lemma single_timer_stable : stable anyCall single_timer.
Proof.
  stable_by single_timer_leaf.
Qed.

Ltac disabled_leaf :=
  unfold disabled in *; world_simpl; unfold cleared in *; split_hyps;
  split; [ congruence | ];
  let i := fresh "i" in
  let Hi := fresh "Hi" in
  intros i Hi;
  repeat match goal with
         | |- context [match ?x with Some _ => _ | None => _ end] =>
             destruct x eqn:?
         end;
  rewrite ?lookup_delete; repeat case_decide; auto; congruence.

Lemma disabled_stable : stable (fun c => negb (enabling c)) disabled.
Proof.
  stable_by disabled_leaf.
Qed.





(** *** Promises *)

Lemma resolvePromise_take n p v ps :
  (n <= p)%nat -> take n (resolvePromise p v ps) = take n ps.
Proof.
  intros Hn. unfold resolvePromise. destruct (ps !! p) as [[z|]|]; auto.
  apply take_insert_ge, Hn.
Qed.

Lemma resolvePromise_pending p v ps :
  ps !! p = Some None -> resolvePromise p v ps !! p = Some (Some v).
Proof.
  intros Hp. unfold resolvePromise. rewrite Hp.
  apply list_lookup_insert_eq. eapply lookup_lt_Some, Hp.
Qed.

(** A fulfilled promise keeps its value. *)
Lemma resolvePromise_fulfilled p q v u ps :
  ps !! q = Some (Some u) -> resolvePromise p v ps !! q = Some (Some u).
Proof.
  intros Hq. unfold resolvePromise.
  destruct (ps !! p) as [[z|]|] eqn:Hp; auto.
  destruct (decide (p = q)) as [->|Hne]; [congruence |].
  rewrite list_lookup_insert_ne; assumption.
Qed.



Ltac frozen_leaf :=
  unfold frozen in *; world_simpl; split_hyps;
  match goal with
  | Ht : take (length ?ps) ?l = ?ps |- _ =>
      assert (length ps <= length l)%nat
        by (rewrite <- Ht at 1; rewrite length_take; lia)
  end;
  split;
  [ rewrite ?resolvePromise_take by auto;
    rewrite ?take_app_le by assumption; assumption
  | intros ? ?; first [ auto; fail | simplify_eq; lia ] ].

Lemma frozen_stable ps : stable anyCall (frozen ps).
Proof.
  stable_by frozen_leaf.
Qed.

Ltac fulfilled_leaf :=
  world_simpl;
  repeat first [ apply resolvePromise_fulfilled
               | rewrite lookup_app_l by (eapply lookup_lt_Some; eassumption) ];
  assumption.

Lemma fulfilled_stable p v :
  stable anyCall (fun w => promises w !! p = Some (Some v)).
Proof.
  stable_by fulfilled_leaf.
Qed.



(** *** The inputs of a detection attempt *)

Lemma getMinValue_eq env w :
  _getMinValue env w =
    (Normal
       (if truthy (_minValue (det w)) then _minValue (det w)
        else if negb (domContentLoadedEventEnd (performance_timing env) =? 0)
             then Some (domContentLoadedEventEnd (performance_timing env)
                        - navigationStart (performance_timing env))
             else None),
     w).
Proof.
  unfold _getMinValue, bind, this, ask, ret. cbn.
  destruct (truthy (_minValue (det w))); [reflexivity |].
  destruct (negb (domContentLoadedEventEnd (performance_timing env) =? 0));
    reflexivity.
Qed.

Lemma attemptMinValue_eq env w :
  attemptMinValue env w =
    if truthy (_minValue (det w)) then _minValue (det w)
    else if negb (domContentLoadedEventEnd (performance_timing env) =? 0)
         then Some (domContentLoadedEventEnd (performance_timing env)
                    - navigationStart (performance_timing env))
         else None.
Proof.
  unfold attemptMinValue, completion. rewrite getMinValue_eq. reflexivity.
Qed.

(** Every attempt hands the core the search start, the minimum value, the
    last busy time and the current time it has read, whatever the minimum
    value is. *)
Lemma checkTTI_calls_core env w :
  EComputeFCI (searchStart env) (attemptMinValue env w) (attemptLastBusy w)
    (performance_now env (clockReads w))
  ∈ trace (exec _checkTTI env w).
Proof.
  apply (wp_exec _checkTTI env
           (fun w' =>
              EComputeFCI (searchStart env) (attemptMinValue env w)
                (attemptLastBusy w) (performance_now env (clockReads w))
              ∈ trace w')).
  remember (attemptMinValue env w) as mv eqn:Hmv.
  rewrite attemptMinValue_eq in Hmv. unfold attemptLastBusy.
  wp_run; cbn [truthy negb] in *; subst mv; unfold ignoredLog;
    set_solver.
Qed.

(** C5, as the code has it.  The minimum value of an attempt is
    [_minValue] when that is a non-zero number, else
    [domContentLoadedEventEnd - navigationStart] when
    [domContentLoadedEventEnd] is set, else [null]; it is what the attempt
    hands to the core.  Once [setMinValue(v)] has stored a non-zero [v],
    every attempt uses [v] until the next [setMinValue], whatever
    [performance.timing] says. *)
Theorem getMinValue_effective env0 env w (v : Z) evs :
  v <> 0 ->
  admits (fun c => negb (setsMinValue c)) evs ->
  let fromTiming :=
    if domContentLoadedEventEnd (performance_timing env) =? 0 then None
    else Some (domContentLoadedEventEnd (performance_timing env)
               - navigationStart (performance_timing env)) in
  let minValue :=
    match _minValue (det w) with
    | Some o => if o =? 0 then fromTiming else Some o
    | None => fromTiming
    end in
  let w' := run evs (exec (setMinValue v) env0 w) in
  _getMinValue env w = (Normal minValue, w) /\
  attemptMinValue env w = minValue /\
  EComputeFCI (searchStart env) minValue (attemptLastBusy w)
    (performance_now env (clockReads w))
  ∈ trace (exec _checkTTI env w) /\
  _getMinValue env w' = (Normal (Some v), w') /\
  EComputeFCI (searchStart env) (Some v) (attemptLastBusy w')
    (performance_now env (clockReads w'))
  ∈ trace (exec _checkTTI env w').
Proof.
  intros Hv Hevs fromTiming minValue w'.
  assert (Hmin : attemptMinValue env w = minValue).
  { rewrite attemptMinValue_eq. subst minValue fromTiming.
    destruct (_minValue (det w)) as [o|]; cbn [truthy];
      [destruct (o =? 0) |];
      cbn [negb];
      destruct (domContentLoadedEventEnd (performance_timing env) =? 0);
      reflexivity. }
  assert (Hstored : _minValue (det w') = Some v).
  { subst w'.
    apply (run_stable _ (fun w => _minValue (det w) = Some v)
             (minValue_stable (Some v)) evs); [exact Hevs | reflexivity]. }
  assert (Hmin' : attemptMinValue env w' = Some v).
  { rewrite attemptMinValue_eq, Hstored. cbn [truthy].
    destruct (v =? 0) eqn:Hz; [apply Z.eqb_eq in Hz; contradiction |].
    reflexivity. }
  split.
  { rewrite getMinValue_eq, <- attemptMinValue_eq, Hmin. reflexivity. }
  split; [exact Hmin |].
  split; [rewrite <- Hmin; apply checkTTI_calls_core |].
  split.
  { rewrite getMinValue_eq, <- attemptMinValue_eq, Hmin'. reflexivity. }
  rewrite <- Hmin'. apply checkTTI_calls_core.
Qed.

(** *** A detection attempt on a disabled detector *)

Lemma set_scheduleTimerTasks_same d b :
  _scheduleTimerTasks d = b -> set_scheduleTimerTasks b d = d.
Proof. destruct d. cbn. intros ->. reflexivity. Qed.

Lemma attemptResult_eq env w :
  attemptResult env w =
    computeFirstConsistentlyInteractive (searchStart env)
      (if truthy (_minValue (det w)) then _minValue (det w)
       else if negb (domContentLoadedEventEnd (performance_timing env) =? 0)
            then Some (domContentLoadedEventEnd (performance_timing env)
                       - navigationStart (performance_timing env))
            else None)
      (computeLastKnownNetwork2Busy
         (JSMap.values (_incompleteJSInitiatedRequestStartTimes (det w)))
         (_networkRequests (det w)))
      (performance_now env (clockReads w)) [].
Proof.
  unfold attemptResult, attemptLastBusy. rewrite attemptMinValue_eq.
  reflexivity.
Qed.

Lemma negb_eqb_true z : negb (z =? 0) = true -> z <> 0.
Proof. intros H ->. discriminate. Qed.

(** The outcome of an attempt on a disabled detector: only the trace, the
    count of clock reads and, when the core answers, the promise change. *)
Lemma checkTTI_disabled env w :
  disabled w ->
  wp _checkTTI env
    (fun _ w' =>
       (det w' = det w /\ timers w' = timers w /\
        nextTimerId w' = nextTimerId w) /\
       (truthy (attemptResult env w) = false /\ promises w' = promises w \/
        exists v p, attemptResult env w = Some v /\ v <> 0 /\
          _firstConsistentlyInteractiveResolver (det w) = Some p /\
          promises w' = resolvePromise p v (promises w)))
    (fun w' =>
       (det w' = det w /\ timers w' = timers w /\
        nextTimerId w' = nextTimerId w) /\
       promises w' = promises w /\
       exists v, attemptResult env w = Some v /\ v <> 0 /\
         _firstConsistentlyInteractiveResolver (det w) = None)
    w.
Proof.
  intros [Hoff Hclr].
  assert (Hcl : match _timerId (det w) with
                | Some i => delete i (timers w)
                | None => timers w
                end = timers w).
  { destruct (_timerId (det w)) as [i|] eqn:Hi; [| reflexivity].
    apply delete_id, Hclr. reflexivity. }
  remember (attemptResult env w) as r eqn:Hr.
  rewrite attemptResult_eq in Hr.
  wp_run; subst r;
    repeat match goal with
           | H : negb (_ =? 0) = true |- _ => apply negb_eqb_true in H
           end;
    rewrite ?Hcl, ?(set_scheduleTimerTasks_same _ _ Hoff);
    cbn [truthy negb] in *;
    try (split; [ auto | ]);
    eauto 10.
Qed.

Lemma disable_disabled env w : disabled (exec disable env w).
Proof.
  split; [reflexivity |]. cbn. intros i ->. apply lookup_delete_eq.
Qed.

(** C6, as the code has it.  [_checkTTI] does not test
    [_scheduleTimerTasks].  Forced after [disable()] (and after any further
    events that do not enable the detector again), it leaves the detector
    object, the armed timeouts and the timer ids alone, since both of its
    [rescheduleTimer] calls are refused; but it still asks the core, and
    when the answer is a non-zero number it calls the stored resolver with
    it, or throws when no resolver is stored. *)
Theorem checkTTI_after_disable env0 w0 evs env :
  admits (fun c => negb (enabling c)) evs ->
  let w := run evs (exec disable env0 w0) in
  let w' := exec _checkTTI env w in
  det w' = det w /\ timers w' = timers w /\ nextTimerId w' = nextTimerId w /\
  (truthy (attemptResult env w) = false ->
     promises w' = promises w /\ completion _checkTTI env w = Normal tt) /\
  (forall v p,
     attemptResult env w = Some v -> v <> 0 ->
     _firstConsistentlyInteractiveResolver (det w) = Some p ->
     promises w' = resolvePromise p v (promises w) /\
     completion _checkTTI env w = Normal tt) /\
  (forall v,
     attemptResult env w = Some v -> v <> 0 ->
     _firstConsistentlyInteractiveResolver (det w) = None ->
     promises w' = promises w /\
     completion _checkTTI env w = Throw TypeError).
Proof.
  intros Hevs w w'.
  assert (Hdis : disabled w).
  { subst w. apply (run_stable _ _ disabled_stable evs); [exact Hevs |].
    apply disable_disabled. }
  pose proof (checkTTI_disabled env w Hdis) as Hwp.
  subst w'. unfold wp, exec, completion in *.
  destruct (_checkTTI env w) as [[[]|[]] w1]; cbn [fst snd].
  - destruct Hwp as [(Hd & Ht & Hn) Hp].
    split; [exact Hd |]. split; [exact Ht |]. split; [exact Hn |].
    split; [| split].
    + intros Hf. destruct Hp as [[_ Hp]|(v & p & Hr & Hv & _)]; [auto |].
      rewrite Hr in Hf. cbn in Hf.
      destruct (v =? 0) eqn:Hz; [apply Z.eqb_eq in Hz; contradiction |].
      discriminate.
    + intros v p Hr Hv Hres.
      destruct Hp as [[Hf _]|(v' & p' & Hr' & _ & Hres' & Hp)].
      * rewrite Hr in Hf. cbn in Hf.
        destruct (v =? 0) eqn:Hz; [apply Z.eqb_eq in Hz; contradiction |].
        discriminate.
      * split; [| reflexivity]. congruence.
    + intros v Hr Hv Hres.
      destruct Hp as [[Hf _]|(v' & p' & _ & _ & Hres' & _)].
      * rewrite Hr in Hf. cbn in Hf.
        destruct (v =? 0) eqn:Hz; [apply Z.eqb_eq in Hz; contradiction |].
        discriminate.
      * congruence.
  - destruct Hwp as [(Hd & Ht & Hn) (Hp & v' & Hr' & Hv' & Hres')].
    split; [exact Hd |]. split; [exact Ht |]. split; [exact Hn |].
    split; [| split].
    + intros Hf. rewrite Hr' in Hf. cbn in Hf.
      destruct (v' =? 0) eqn:Hz; [apply Z.eqb_eq in Hz; contradiction |].
      discriminate.
    + intros v p _ _ Hres. congruence.
    + intros v _ _ _. auto.
Qed.

(** *** A detection attempt that finds the answer *)

Lemma timerFires_unarmed i env w :
  timers w !! i = None -> timerFires i env w = (Normal tt, w).
Proof. intros Hi. unfold timerFires. rewrite Hi. reflexivity. Qed.

Lemma single_timer_cleared w :
  single_timer w ->
  match _timerId (det w) with
  | Some i => delete i (timers w)
  | None => timers w
  end = ∅.
Proof.
  intros Hst. apply map_empty. intros i.
  destruct (_timerId (det w)) as [j|] eqn:Hj.
  - rewrite lookup_delete. case_decide; [reflexivity |].
    destruct (timers w !! i) as [d|] eqn:Hi; [| reflexivity].
    specialize (Hst i (ex_intro _ d Hi)). congruence.
  - destruct (timers w !! i) as [d|] eqn:Hi; [| reflexivity].
    specialize (Hst i (ex_intro _ d Hi)). congruence.
Qed.

Lemma checkTTI_resolving env w fci p :
  attemptResult env w = Some fci -> fci <> 0 ->
  _firstConsistentlyInteractiveResolver (det w) = Some p ->
  single_timer w ->
  wp _checkTTI env
    (fun _ w' =>
       promises w' = resolvePromise p fci (promises w) /\ quiescent w')
    (fun _ => False) w.
Proof.
  intros Hr Hfci Hres Hst.
  pose proof (single_timer_cleared w Hst) as Hcl.
  rewrite attemptResult_eq in Hr.
  wp_run; unfold quiescent; world_simpl; unfold cleared;
    rewrite ?Hcl, ?delete_insert_eq, ?delete_empty;
    cbn [truthy negb] in *; simplify_eq;
    try match goal with
        | H : negb (_ =? 0) = false |- _ =>
            apply negb_false_iff, Z.eqb_eq in H; contradiction
        end;
    (split; [ reflexivity | split; reflexivity ]).
Qed.

(** C1, as the code has it.  The test [if (maybeFCI)] takes the answer [0]
    for no answer.  When the core answers with a non-zero number and a
    resolver is stored, [_checkTTI] completes normally, calls the resolver
    with that number (which fulfills the promise when it is pending and
    changes nothing when it is already fulfilled) and calls [disable()]:
    the detector is switched off and, the detector's own timeout being the
    only one, no timeout is armed, the closing
    [rescheduleTimer(now + 1000)] being refused.  From then on, as long as
    [startSchedulingTimerTasks] is not called again, no timeout is armed
    and no firing runs a check; the fulfilled promise keeps its value under
    every later event. *)
Theorem checkTTI_resolves_and_stops env w (fci : Z) (p : nat) :
  attemptResult env w = Some fci -> fci <> 0 ->
  _firstConsistentlyInteractiveResolver (det w) = Some p ->
  single_timer w ->
  let w' := exec _checkTTI env w in
  completion _checkTTI env w = Normal tt /\
  promises w' = resolvePromise p fci (promises w) /\
  (promises w !! p = Some None -> promises w' !! p = Some (Some fci)) /\
  (forall v, promises w !! p = Some (Some v) ->
             promises w' !! p = Some (Some v)) /\
  _scheduleTimerTasks (det w') = false /\ timers w' = ∅ /\
  (forall evs, admits (fun c => negb (enabling c)) evs ->
     let w'' := run evs w' in
     _scheduleTimerTasks (det w'') = false /\ timers w'' = ∅ /\
     forall i env', timerFires i env' w'' = (Normal tt, w'')) /\
  (forall evs v, promises w' !! p = Some (Some v) ->
     promises (run evs w') !! p = Some (Some v)).
Proof.
  intros Hr Hfci Hres Hst w'.
  pose proof (checkTTI_resolving env w fci p Hr Hfci Hres Hst) as Hwp.
  subst w'. unfold wp, exec, completion in *.
  destruct (_checkTTI env w) as [[[]|e] w1]; cbn [fst snd]; [| contradiction].
  destruct Hwp as [Hps [Hoff Hts]].
  split; [reflexivity |]. split; [exact Hps |].
  split; [intros Hp; rewrite Hps; apply resolvePromise_pending, Hp |].
  split; [intros v Hp; rewrite Hps; apply resolvePromise_fulfilled, Hp |].
  split; [exact Hoff |]. split; [exact Hts |]. split.
  - intros evs Hevs.
    assert (Hq : quiescent (run evs w1)).
    { apply (run_stable _ _ quiescent_stable evs);
        [exact Hevs | split; assumption]. }
    destruct Hq as [Hoff' Hts'].
    split; [exact Hoff' |]. split; [exact Hts' |].
    intros i env'. apply timerFires_unarmed. rewrite Hts'.
    apply lookup_empty.
  - intros evs v Hp.
    apply (run_stable anyCall _ (fulfilled_stable p v) evs); [| exact Hp].
    apply Forall_forall. intros ev _. reflexivity.
Qed.

(** *** The promise of [getFirstConsistentlyInteractive] *)

Lemma admits_anyCall evs : admits anyCall evs.
Proof. apply Forall_forall. intros ev _. reflexivity. Qed.

Lemma startSchedulingTimerTasks_frame env w :
  let w' := exec startSchedulingTimerTasks env w in
  _scheduleTimerTasks (det w') = true /\
  promises w' = promises w /\
  loadListeners w' = loadListeners w /\
  _firstConsistentlyInteractiveResolver (det w') =
    _firstConsistentlyInteractiveResolver (det w).
Proof.
  apply (wp_exec startSchedulingTimerTasks env
           (fun w' =>
              _scheduleTimerTasks (det w') = true /\
              promises w' = promises w /\
              loadListeners w' = loadListeners w /\
              _firstConsistentlyInteractiveResolver (det w') =
                _firstConsistentlyInteractiveResolver (det w))).
  wp_run; auto.
Qed.

Lemma startSchedulingTimerTasks_enables env w :
  wp startSchedulingTimerTasks env
    (fun _ w' => _scheduleTimerTasks (det w') = true)
    (fun w' => _scheduleTimerTasks (det w') = true) w.
Proof. wp_run; auto. Qed.

Lemma loadEvent_enables env w :
  (0 < loadListeners w)%nat ->
  _scheduleTimerTasks (det (exec loadEvent env w)) = true.
Proof.
  intros Hn. unfold exec, loadEvent.
  destruct (loadListeners w) as [|n]; [lia |]. cbn [repeatM].
  apply (wp_exec (startSchedulingTimerTasks;; repeatM n startSchedulingTimerTasks)
           env (fun w' => _scheduleTimerTasks (det w') = true)).
  apply wp_bind.
  eapply wp_mono; [ apply startSchedulingTimerTasks_enables | | auto ].
  intros u w' Hw'. cbn beta.
  apply (wp_repeatM (fun w' => _scheduleTimerTasks (det w') = true));
    [| exact Hw'].
  intros w0 _. apply startSchedulingTimerTasks_enables.
Qed.

Lemma startSchedulingTimerTasks_completes env w :
  startSchedulingTimerTasks env w =
    (Normal tt, exec startSchedulingTimerTasks env w).
Proof.
  unfold exec.
  change (startSchedulingTimerTasks env w)
    with (rescheduleTimer 0 env
            (with_det (set_scheduleTimerTasks true (det w))
               (emits [ELog LogEnabling] w))).
  pose proof (rescheduleTimer_completes env
                (with_det (set_scheduleTimerTasks true (det w))
                   (emits [ELog LogEnabling] w)) 0) as Hc.
  unfold completion in Hc.
  destruct (rescheduleTimer 0 env _) as [c w']. cbn in *. congruence.
Qed.

Lemma getFirstConsistentlyInteractive_eq env w :
  getFirstConsistentlyInteractive env w =
    (Normal (length (promises w)),
     if readyState_complete env
     then exec startSchedulingTimerTasks env (promised w)
     else listening (promised w)).
Proof.
  unfold getFirstConsistentlyInteractive, bind, newPromise, update, ask.
  cbn. fold (promised w).
  destruct (readyState_complete env).
  - rewrite startSchedulingTimerTasks_completes. reflexivity.
  - reflexivity.
Qed.

Lemma getFirstConsistentlyInteractive_frame env w :
  let w' := exec getFirstConsistentlyInteractive env w in
  promises w' = promises w ++ [None] /\
  _firstConsistentlyInteractiveResolver (det w') = Some (length (promises w)).
Proof.
  unfold exec. rewrite getFirstConsistentlyInteractive_eq. cbn [snd].
  destruct (readyState_complete env).
  - destruct (startSchedulingTimerTasks_frame env (promised w))
      as (_ & Hp & _ & Hr).
    rewrite Hp, Hr. auto.
  - auto.
Qed.


(** C10.  A call of [getFirstConsistentlyInteractive] overwrites the stored
    resolver with the one of the promise it returns.  From then on no
    event changes a promise returned by an earlier call: one that is
    pending at that moment stays pending for ever. *)
Theorem earlier_promises_stay_pending env w (q : nat) :
  (q < length (promises w))%nat ->
  let w' := exec getFirstConsistentlyInteractive env w in
  completion getFirstConsistentlyInteractive env w
    = Normal (length (promises w)) /\
  _firstConsistentlyInteractiveResolver (det w')
    = Some (length (promises w)) /\
  q <> length (promises w) /\
  (forall evs, promises (run evs w') !! q = promises w !! q) /\
  (promises w !! q = Some None ->
   forall evs, promises (run evs w') !! q = Some None).
Proof.
  intros Hq w'.
  destruct (getFirstConsistentlyInteractive_frame env w) as [Hps Hres].
  fold w' in Hps, Hres.
  assert (Hfrozen : frozen (promises w) w').
  { split.
    - rewrite Hps. apply take_app_length.
    - intros r Hr. rewrite Hres in Hr. injection Hr as <-. lia. }
  assert (Hstay : forall evs, promises (run evs w') !! q = promises w !! q).
  { intros evs.
    destruct (run_stable anyCall _ (frozen_stable (promises w)) evs w'
                (admits_anyCall evs) Hfrozen) as [Htake _].
    transitivity
      (take (length (promises w)) (promises (run evs w')) !! q).
    - symmetry. apply lookup_take_lt, Hq.
    - rewrite Htake. reflexivity. }
  split.
  { unfold completion. rewrite getFirstConsistentlyInteractive_eq.
    reflexivity. }
  split; [exact Hres |]. split; [lia |]. split; [exact Hstay |].
  intros Hpending evs. rewrite Hstay. exact Hpending.
Qed.

(** *** Worlds the event loop reaches *)

Lemma requests_wf_stable :
  stable anyCall
    (fun w => JSMap.wf (_incompleteJSInitiatedRequestStartTimes (det w))).
Proof.
  stable_by ltac:(auto using JSMap_wf_set, JSMap_wf_delete).
Qed.

Lemma reachable_single_timer w : reachable w -> single_timer w.
Proof.
  intros (config & evs & ->).
  apply (run_stable anyCall _ single_timer_stable evs);
    [apply admits_anyCall |].
  intros i [d Hi]. cbn in Hi. rewrite lookup_empty in Hi. discriminate.
Qed.

Lemma reachable_requests_wf w :
  reachable w -> JSMap.wf (_incompleteJSInitiatedRequestStartTimes (det w)).
Proof.
  intros (config & evs & ->).
  apply (run_stable anyCall _ requests_wf_stable evs);
    [apply admits_anyCall |].
  apply NoDup_nil_2.
Qed.

(** With no timeout armed and no ['load'] listener registered, the host
    has nothing to run. *)
Lemma hostDriven_idle w evs :
  timers w = ∅ -> loadListeners w = 0%nat ->
  admits hostDriven evs -> run evs w = w.
Proof.
  intros Hts Hll. induction evs as [|[env c] evs IH]; intros Hevs; cbn.
  - reflexivity.
  - inversion Hevs as [|ev evs' Hc Hrest]; subst. cbn in Hc.
    assert (Hstep : step env c w = w).
    { destruct c; try discriminate Hc; unfold step; cbn [handler].
      - rewrite timerFires_unarmed; [reflexivity |].
        rewrite Hts. apply lookup_empty.
      - unfold loadEvent. rewrite Hll. reflexivity. }
    rewrite Hstep. apply IH, Hrest.
Qed.

(** *** Before the detector is enabled *)

Ltac never_enabled_leaf :=
  unfold never_enabled in *; world_simpl; split_hyps;
  try congruence;
  repeat match goal with
         | H : _timerId _ = None |- _ => rewrite H
         | H : timers _ = ∅ |- _ => rewrite H
         end;
  rewrite ?delete_empty; auto.

Lemma never_enabled_stable :
  stable (fun c => negb (enabling c)) never_enabled.
Proof.
  stable_by never_enabled_leaf.
Qed.

(** X1.  Timer tasks are only scheduled when the detector is enabled: on a
    new detector, whatever is called in whatever order ([rescheduleTimer],
    [setMinValue], [disable], the request callbacks, even [_checkTTI]),
    as long as [startSchedulingTimerTasks] has not run no timeout is armed,
    [_timerId] stays [null] and [_timerActivationTime] stays [-Infinity]. *)
Theorem no_timer_before_enable config evs :
  admits (fun c => negb (enabling c)) evs ->
  let w := run evs (newWorld config) in
  _scheduleTimerTasks (det w) = false /\ timers w = ∅ /\
  _timerId (det w) = None /\
  _timerActivationTime (det w) = NegInfinity.
Proof.
  intros Hevs.
  apply (run_stable _ _ never_enabled_stable evs); [exact Hevs |].
  repeat split; reflexivity.
Qed.

(** *** One timeout, and only while enabled *)

Ltac timers_empty_leaf :=
  apply map_empty;
  let k := fresh "k" in
  let d := fresh "d" in
  let Hk := fresh "Hk" in
  intros k;
  lazymatch goal with
  | |- ?m !! k = None =>
      destruct (m !! k) as [d|] eqn:Hk; [ exfalso | reflexivity ]
  end;
  repeat match type of Hk with
         | context [match ?x with Some _ => _ | None => _ end] =>
             destruct x eqn:?
         | (<[_:=_]> _) !! _ = Some _ =>
             apply lookup_insert_Some in Hk;
             destruct Hk as [[? ?]|[? Hk]]; [ congruence | ]
         | (delete _ _) !! _ = Some _ =>
             apply lookup_delete_Some in Hk; destruct Hk as [? Hk]
         end;
  match goal with
  | Hst : forall j, is_Some _ -> _ |- _ =>
      specialize (Hst k (ex_intro _ d Hk)); congruence
  | Hoff : _ -> timers _ = ∅ |- _ =>
      rewrite Hoff in Hk by congruence;
      rewrite lookup_empty in Hk; discriminate
  end.

Ltac timer_discipline_leaf :=
  unfold timer_discipline in *; split_hyps;
  split;
  [ single_timer_leaf
  | unfold single_timer in *; world_simpl; unfold cleared in *;
    let Hf := fresh "Hf" in
    intros Hf; try discriminate Hf; try congruence;
    first [ auto; fail | timers_empty_leaf ] ].

Lemma timer_discipline_stable : stable anyCall timer_discipline.
Proof.
  stable_by timer_discipline_leaf.
Qed.

(** X2.  In every world the event loop reaches, the host holds at most one
    timeout of the detector; an armed timeout is the one [_timerId] names,
    and the detector is enabled.  In particular no timeout is armed while
    the detector is switched off. *)
Theorem timer_discipline_reachable w :
  reachable w ->
  (forall i, is_Some (timers w !! i) ->
     _timerId (det w) = Some i /\ _scheduleTimerTasks (det w) = true) /\
  (forall i j, is_Some (timers w !! i) -> is_Some (timers w !! j) -> i = j) /\
  (_scheduleTimerTasks (det w) = false -> timers w = ∅).
Proof.
  intros (config & evs & ->).
  assert (Hd : timer_discipline (run evs (newWorld config))).
  { apply (run_stable anyCall _ timer_discipline_stable evs);
      [apply admits_anyCall |].
    split.
    - intros i [d Hi]. cbn in Hi. rewrite lookup_empty in Hi. discriminate.
    - reflexivity. }
  destruct Hd as [Hst Hoff].
  split; [| split].
  - intros i Hi. split; [apply Hst, Hi |].
    destruct (_scheduleTimerTasks (det (run evs (newWorld config)))) eqn:Hf;
      [reflexivity |].
    destruct Hi as [d Hi]. rewrite Hoff in Hi by reflexivity.
    rewrite lookup_empty in Hi. discriminate.
  - intros i j Hi Hj. apply Hst in Hi. apply Hst in Hj. congruence.
  - exact Hoff.
Qed.

(** *** Requests that start *)

Lemma JSMap_get_set_eq {V} (id : string) (v : V) (m : JSMap.t V) :
  JSMap.get id (JSMap.set id v m) = Some v.
Proof.
  induction m as [|[k' v'] m IH]; cbn.
  - destruct (decide (id = id)); congruence.
  - destruct (decide (id = k')) as [->|Hne]; cbn.
    + destruct (decide (k' = k')); congruence.
    + destruct (decide (id = k')); [contradiction | exact IH].
Qed.

Lemma JSMap_get_set_ne {V} (k id : string) (v : V) (m : JSMap.t V) :
  k <> id -> JSMap.get k (JSMap.set id v m) = JSMap.get k m.
Proof.
  intros Hne. induction m as [|[k' v'] m IH]; cbn.
  - destruct (decide (k = id)); [contradiction | reflexivity].
  - destruct (decide (id = k')) as [->|Hid]; cbn.
    + destruct (decide (k = k')); [contradiction | reflexivity].
    + destruct (decide (k = k')); [reflexivity | exact IH].
Qed.

Lemma JSMap_set_fresh {V} (id : string) (v : V) (m : JSMap.t V) :
  JSMap.get id m = None -> JSMap.set id v m = m ++ [(id, v)].
Proof.
  induction m as [|[k' v'] m IH]; cbn; [reflexivity |].
  destruct (decide (id = k')); [discriminate |].
  intros Hm. rewrite IH by assumption. reflexivity.
Qed.

Lemma JSMap_set_present {V} (id : string) (v : V) (m : JSMap.t V) :
  is_Some (JSMap.get id m) ->
  JSMap.keys (JSMap.set id v m) = JSMap.keys m /\
  JSMap.size (JSMap.set id v m) = JSMap.size m.
Proof.
  unfold JSMap.keys, JSMap.size.
  induction m as [|[k' v'] m IH]; cbn.
  - intros [x Hx]. discriminate.
  - destruct (decide (id = k')) as [->|Hne]; cbn; [auto |].
    intros Hm. destruct (IH Hm) as [Hk Hs]. rewrite Hk, Hs. auto.
Qed.

Lemma JSMap_delete_set {V} (id : string) (v : V) (m : JSMap.t V) :
  JSMap.delete id (JSMap.set id v m) = JSMap.delete id m.
Proof.
  induction m as [|[k' v'] m IH]; cbn.
  - destruct (decide (id = id)); congruence.
  - destruct (decide (id = k')) as [->|Hne]; cbn.
    + destruct (decide (k' = k')); congruence.
    + destruct (decide (id = k')); [contradiction |]. rewrite IH.
      reflexivity.
Qed.

(** X3.  [_beforeJSInitiatedRequestCallback(id)] never throws and stores
    the current reading of the clock as the start time of [id], leaving
    every other request, the timeouts and the promises alone.  A new [id]
    goes to the end of the map, so the list of in-flight start times grows
    by this reading at its end; an [id] that is already in flight keeps
    its place and only has its start time overwritten. *)
Theorem beforeRequest_records env w (requestId : string) :
  let m := _incompleteJSInitiatedRequestStartTimes (det w) in
  let t := performance_now env (clockReads w) in
  let w' := exec (_beforeJSInitiatedRequestCallback requestId) env w in
  let m' := _incompleteJSInitiatedRequestStartTimes (det w') in
  completion (_beforeJSInitiatedRequestCallback requestId) env w = Normal tt /\
  JSMap.get requestId m' = Some t /\
  (forall k, k <> requestId -> JSMap.get k m' = JSMap.get k m) /\
  (JSMap.get requestId m = None ->
     JSMap.values m' = JSMap.values m ++ [t] /\
     JSMap.size m' = S (JSMap.size m)) /\
  (is_Some (JSMap.get requestId m) ->
     JSMap.keys m' = JSMap.keys m /\ JSMap.size m' = JSMap.size m) /\
  (JSMap.wf m -> JSMap.wf m') /\
  det w' = set_requests m' (det w) /\
  timers w' = timers w /\ promises w' = promises w.
Proof.
  intros m t w' m'.
  assert (Hm' : m' = JSMap.set requestId t m) by reflexivity.
  split; [reflexivity |].
  split; [rewrite Hm'; apply JSMap_get_set_eq |].
  split; [intros k Hk; rewrite Hm'; apply JSMap_get_set_ne, Hk |].
  split.
  { intros Hfresh. rewrite Hm', JSMap_set_fresh by assumption.
    unfold JSMap.values, JSMap.size. rewrite fmap_app, length_app. cbn.
    split; [reflexivity | lia]. }
  split; [intros Hin; rewrite Hm'; apply JSMap_set_present, Hin |].
  split; [intros Hwf; rewrite Hm'; apply JSMap_wf_set, Hwf |].
  repeat split; reflexivity.
Qed.

(** X4.  A request that starts and then completes leaves no entry: after
    [_beforeJSInitiatedRequestCallback(id)] and then
    [_afterJSInitiatedRequestCallback(id)] the map is the one before
    without [id], whatever the two readings of the clock; when [id] was
    not in flight before, the map and with it the list of start times are
    exactly as before. *)
Theorem beforeRequest_then_afterRequest env env' w (requestId : string) :
  let m := _incompleteJSInitiatedRequestStartTimes (det w) in
  let w' :=
    exec (_afterJSInitiatedRequestCallback requestId) env'
      (exec (_beforeJSInitiatedRequestCallback requestId) env w) in
  let m' := _incompleteJSInitiatedRequestStartTimes (det w') in
  m' = JSMap.delete requestId m /\
  (JSMap.get requestId m = None ->
     m' = m /\ det w' = det w /\
     completion _incompleteRequestStarts env' w'
       = completion _incompleteRequestStarts env w) /\
  timers w' = timers w /\ promises w' = promises w.
Proof.
  intros m w' m'.
  assert (Hm' : m' = JSMap.delete requestId m).
  { subst m' w'. cbn. apply JSMap_delete_set. }
  split; [exact Hm' |]. split; [| split; reflexivity].
  intros Hfresh.
  assert (Hsame : m' = m).
  { rewrite Hm'. apply JSMap_delete_absent, Hfresh. }
  split; [exact Hsame |].
  assert (Hdet : det w' = det w).
  { change (det w') with (set_requests m' (det w)). rewrite Hsame.
    subst m. destruct (det w). reflexivity. }
  split; [exact Hdet |].
  unfold completion, _incompleteRequestStarts, bind, this, ret. cbn [fst].
  rewrite Hdet. reflexivity.
Qed.

(** X5.  In every world the event loop reaches there is at most one entry
    per request id in the map of in-flight requests, and the list of
    start times handed to the core has one element per request in
    flight. *)
Theorem requests_keys_unique env w :
  reachable w ->
  NoDup (JSMap.keys (_incompleteJSInitiatedRequestStartTimes (det w))) /\
  (forall starts,
     completion _incompleteRequestStarts env w = Normal starts ->
     length starts
       = length (JSMap.keys (_incompleteJSInitiatedRequestStartTimes (det w)))).
Proof.
  intros Hr. split; [apply reachable_requests_wf, Hr |].
  intros starts Hs. cbn in Hs. injection Hs as <-.
  unfold JSMap.values, JSMap.keys. rewrite !length_fmap. reflexivity.
Qed.

(** *** The resolver *)

Lemma resolvePromise_same_length p v ps :
  length (resolvePromise p v ps) = length ps.
Proof.
  unfold resolvePromise. destruct (ps !! p) as [[z|]|]; auto.
  apply length_insert.
Qed.

Ltac resolver_leaf :=
  unfold resolver_is_latest in *; world_simpl;
  repeat match goal with
         | H : _firstConsistentlyInteractiveResolver _ = _ |- _ =>
             rewrite H in *
         end;
  rewrite ?resolvePromise_same_length, ?length_app; cbn [length];
  first [ assumption | lia | congruence ].

Lemma resolver_is_latest_stable : stable anyCall resolver_is_latest.
Proof.
  stable_by resolver_leaf.
Qed.

(** X6.  In every world the event loop reaches, the stored resolver is
    [null] exactly when no promise has been handed out, and otherwise it
    is the resolver of the promise handed out last: an attempt can only
    ever fulfill that one. *)
Theorem resolver_is_latest_reachable w :
  reachable w ->
  match _firstConsistentlyInteractiveResolver (det w) with
  | None => promises w = []
  | Some p => length (promises w) = S p /\ is_Some (promises w !! p)
  end.
Proof.
  intros (config & evs & ->).
  assert (Hl : resolver_is_latest (run evs (newWorld config))).
  { apply (run_stable anyCall _ resolver_is_latest_stable evs);
      [apply admits_anyCall | reflexivity]. }
  unfold resolver_is_latest in Hl.
  destruct (_firstConsistentlyInteractiveResolver
              (det (run evs (newWorld config)))) as [p|]; [| exact Hl].
  split; [exact Hl |]. apply lookup_lt_is_Some. lia.
Qed.

(** *** [disable] *)

(** X7.  [disable()] never throws; it clears the timeout of [_timerId] and
    switches the detector off, and touches nothing else: the activation
    time is not reset, the stored resolver, the minimum value, the requests
    in flight, the promises and the ['load'] listeners stay.  A second
    [disable()] changes neither the detector nor the timeouts. *)
Theorem disable_idempotent env env' w :
  let w1 := exec disable env w in
  let w2 := exec disable env' w1 in
  completion disable env w = Normal tt /\
  det w1 = set_scheduleTimerTasks false (det w) /\
  timers w1 = cleared (_timerId (det w)) (timers w) /\
  (forall i, _timerId (det w) = Some i -> timers w1 !! i = None) /\
  (forall i, _timerId (det w) <> Some i -> timers w1 !! i = timers w !! i) /\
  promises w1 = promises w /\ loadListeners w1 = loadListeners w /\
  nextTimerId w1 = nextTimerId w /\
  det w2 = det w1 /\ timers w2 = timers w1.
Proof.
  intros w1 w2.
  split; [reflexivity |]. split; [reflexivity |]. split; [reflexivity |].
  split.
  { intros i Hi. subst w1. cbn. rewrite Hi. apply lookup_delete_eq. }
  split.
  { intros i Hi. subst w1. cbn.
    destruct (_timerId (det w)) as [j|]; [| reflexivity].
    apply lookup_delete_ne. congruence. }
  split; [reflexivity |]. split; [reflexivity |]. split; [reflexivity |].
  split; [reflexivity |].
  subst w2 w1. cbn. destruct (_timerId (det w)) as [j|]; [| reflexivity].
  apply delete_id, lookup_delete_eq.
Qed.

(** X8.  [disable()] does not take back the ['load'] listener of
    [getFirstConsistentlyInteractive]: when one is registered, the
    ['load'] event after a [disable()] switches the detector on again, and
    on a detector that had never been enabled it arms a timeout. *)
Theorem disable_keeps_load_listener env env' w :
  (0 < loadListeners w)%nat ->
  let w' := exec loadEvent env' (exec disable env w) in
  _scheduleTimerTasks (det w') = true /\
  (_timerActivationTime (det w) = NegInfinity ->
   exists i, _timerId (det w') = Some i /\ is_Some (timers w' !! i)).
Proof.
  intros Hn w'.
  split; [apply loadEvent_enables; exact Hn |].
  intros Hfresh. subst w'. unfold exec at 1, loadEvent.
  change (loadListeners (exec disable env w)) with (loadListeners w).
  apply (wp_exec (repeatM (loadListeners w) startSchedulingTimerTasks) env'
           (fun w' => exists i, _timerId (det w') = Some i /\
                                is_Some (timers w' !! i))).
  destruct (loadListeners w) as [|n]; [lia |]. cbn [repeatM].
  apply wp_bind.
  eapply wp_mono with
    (Q := fun _ w' => exists i, _timerId (det w') = Some i /\
                                is_Some (timers w' !! i))
    (E := fun _ => False).
  - wp_run.
    + cbn in *. rewrite Hfresh in *. discriminate.
    + eexists. split; [reflexivity |]. rewrite lookup_insert_eq. eauto.
  - intros u w0 Hw0. cbn beta.
    apply (wp_repeatM
             (fun w' => exists i, _timerId (det w') = Some i /\
                                  is_Some (timers w' !! i)));
      [| exact Hw0].
    intros w1 (i & Hi & Harmed). wp_run.
    + eauto.
    + eexists. split; [reflexivity |]. rewrite lookup_insert_eq. eauto.
  - contradiction.
Qed.

(** X9.  A detector that was stopped after a check had been rescheduled
    cannot be started again: [disable()] keeps [_timerActivationTime], so
    [startSchedulingTimerTasks()] finds its [rescheduleTimer(0)] refused.
    The detector is enabled with no timeout armed, and when no ['load']
    listener is pending nothing the host does runs a check any more. *)
Theorem restart_arms_nothing env env' w :
  reachable w ->
  ~ number_le (_timerActivationTime (det w)) (Num 0) ->
  let w' := exec startSchedulingTimerTasks env' (exec disable env w) in
  _scheduleTimerTasks (det w') = true /\ timers w' = ∅ /\
  (loadListeners w = 0%nat ->
   forall evs, admits hostDriven evs -> run evs w' = w').
Proof.
  intros Hr Hact w'.
  assert (Hts : timers w' = ∅).
  { subst w'. unfold exec at 1.
    change (startSchedulingTimerTasks env' (exec disable env w))
      with (rescheduleTimer 0 env'
              (with_det (set_scheduleTimerTasks true (det (exec disable env w)))
                 (emits [ELog LogEnabling] (exec disable env w)))).
    rewrite rescheduleTimer_ignored.
    - cbn. apply single_timer_cleared, reachable_single_timer, Hr.
    - reflexivity.
    - cbn. destruct (number_gt (_timerActivationTime (det w)) (Num 0)) eqn:Hgt;
        [reflexivity |].
      exfalso. apply Hact, number_gt_false_le, Hgt. }
  split; [| split; [exact Hts |]].
  - destruct (startSchedulingTimerTasks_frame env' (exec disable env w))
      as [Hon _]. exact Hon.
  - intros Hll evs Hevs. apply hostDriven_idle; [exact Hts | | exact Hevs].
    destruct (startSchedulingTimerTasks_frame env' (exec disable env w))
      as (_ & _ & Hl & _).
    fold w' in Hl. rewrite Hl. exact Hll.
Qed.

(** *** Attempts that do not find the answer *)

Lemma negb_eqb_false z : negb (z =? 0) = false -> z = 0.
Proof. intros H. apply negb_false_iff, Z.eqb_eq in H. exact H. Qed.

(** X10.  The retry cadence.  On an enabled detector with a minimum value
    available, an attempt to which the core answers [null] or [0] leaves
    the promises alone and calls [rescheduleTimer(now + 1000)] with the
    second reading of the clock: unless a later check is already
    scheduled, the outstanding timeout is cleared and a new one armed for
    one second later. *)
Theorem failed_attempt_retries env w (minValue : Z) :
  _scheduleTimerTasks (det w) = true ->
  attemptMinValue env w = Some minValue ->
  truthy (attemptResult env w) = false ->
  let retryAt := performance_now env (S (clockReads w)) + 1000 in
  let w' := exec _checkTTI env w in
  completion _checkTTI env w = Normal tt /\
  promises w' = promises w /\
  _scheduleTimerTasks (det w') = true /\
  (number_le (_timerActivationTime (det w)) (Num retryAt) ->
     timers w' =
       <[nextTimerId w :=
           retryAt - performance_now env (S (S (clockReads w)))]>
         (cleared (_timerId (det w)) (timers w)) /\
     _timerId (det w') = Some (nextTimerId w) /\
     _timerActivationTime (det w') = Num retryAt) /\
  (~ number_le (_timerActivationTime (det w)) (Num retryAt) ->
     det w' = det w /\ timers w' = timers w).
Proof.
  intros Hon Hmin Hres retryAt w'.
  assert (Hwp :
    wp _checkTTI env
      (fun _ w' =>
         promises w' = promises w /\
         _scheduleTimerTasks (det w') = true /\
         (number_le (_timerActivationTime (det w)) (Num retryAt) ->
            timers w' =
              <[nextTimerId w :=
                  retryAt - performance_now env (S (S (clockReads w)))]>
                (cleared (_timerId (det w)) (timers w)) /\
            _timerId (det w') = Some (nextTimerId w) /\
            _timerActivationTime (det w') = Num retryAt) /\
         (~ number_le (_timerActivationTime (det w)) (Num retryAt) ->
            det w' = det w /\ timers w' = timers w))
      (fun _ => False) w).
  { rewrite attemptMinValue_eq in Hmin. rewrite attemptResult_eq in Hres.
    subst retryAt.
    wp_run; cbn [truthy negb] in *; simplify_eq; unfold cleared;
      repeat match goal with
             | H : number_gt _ _ = false |- _ =>
                 apply number_gt_false_le in H
             | H : number_gt ?a ?b = true |- _ =>
                 assert (~ number_le a b)
                   by (let Hle := fresh in
                       intros Hle; apply number_gt_false_le in Hle;
                       congruence);
                 clear H
             end;
      (split; [reflexivity | split; [assumption || reflexivity |]]);
      (split; [intros ? | intros ?]);
      try contradiction; auto. }
  subst w'. unfold wp, exec, completion in *.
  destruct (_checkTTI env w) as [[[]|e] w1]; cbn [fst snd];
    [| contradiction].
  split; [reflexivity | exact Hwp].
Qed.

Ltac order_facts :=
  repeat match goal with
         | H : number_gt _ _ = false |- _ => apply number_gt_false_le in H
         | H : number_gt (Num _) (Num _) = true |- _ =>
             cbn [number_gt] in H; apply Z.ltb_lt in H
         | H : number_gt NegInfinity _ = true |- _ => discriminate H
         end;
  cbn [number_le] in *.

(** X11.  An attempt that does not find the answer never leaves the next
    check earlier than one second after its own reading of the clock:
    on an enabled detector whose clock does not run backwards, when the
    core answers [null] or [0], [_timerActivationTime] after the attempt
    is at least [currentTime + 1000]; and when no minimum value was
    available it is at least [max(lastBusy + 5000, currentTime + 1000)]. *)
Theorem failed_attempt_postpones env w :
  _scheduleTimerTasks (det w) = true ->
  monotone_clock env ->
  truthy (attemptResult env w) = false ->
  let currentTime := performance_now env (clockReads w) in
  let w' := exec _checkTTI env w in
  completion _checkTTI env w = Normal tt /\
  promises w' = promises w /\
  _scheduleTimerTasks (det w') = true /\
  number_le (Num (currentTime + 1000)) (_timerActivationTime (det w')) /\
  (attemptMinValue env w = None ->
   number_le
     (Num (Z.max (attemptLastBusy w + 5000) (currentTime + 1000)))
     (_timerActivationTime (det w'))).
Proof.
  intros Hon Hmono Hres currentTime w'.
  pose proof (Hmono (clockReads w) (S (clockReads w))) as Hm1.
  pose proof (Hmono (clockReads w) (S (S (clockReads w)))) as Hm2.
  assert (Hwp :
    wp _checkTTI env
      (fun _ w' =>
         promises w' = promises w /\
         _scheduleTimerTasks (det w') = true /\
         number_le (Num (currentTime + 1000))
           (_timerActivationTime (det w')) /\
         (attemptMinValue env w = None ->
          number_le
            (Num (Z.max (attemptLastBusy w + 5000) (currentTime + 1000)))
            (_timerActivationTime (det w'))))
      (fun _ => False) w).
  { remember (attemptMinValue env w) as mv eqn:Hmv.
    rewrite attemptMinValue_eq in Hmv. rewrite attemptResult_eq in Hres.
    unfold attemptLastBusy. subst currentTime.
    wp_run; cbn [truthy negb] in *; simplify_eq;
      (split; [reflexivity | split; [assumption || reflexivity |]]);
      (split; [| intros ?; try discriminate]);
      destruct (_timerActivationTime (det w)) as [|a];
      order_facts; try contradiction; lia. }
  subst w'. unfold wp, exec, completion in *.
  destruct (_checkTTI env w) as [[[]|e] w1]; cbn [fst snd];
    [| contradiction].
  split; [reflexivity | exact Hwp].
Qed.

(** *** An attempt without a promise *)

(** X12.  When the detector was started without
    [getFirstConsistentlyInteractive] ever being called, the stored
    resolver is [null]: an attempt to which the core answers a non-zero
    number throws a [TypeError] at the call of the resolver.  [disable()]
    and the closing [rescheduleTimer] are not reached: the enabled flag
    and the promises are as before, and when a minimum value was available
    so are the whole detector and the timeouts, so that after a timeout
    has fired into such an attempt none is armed. *)
Theorem attempt_without_resolver_throws env w (fci : Z) :
  _firstConsistentlyInteractiveResolver (det w) = None ->
  attemptResult env w = Some fci -> fci <> 0 ->
  let w' := exec _checkTTI env w in
  completion _checkTTI env w = Throw TypeError /\
  promises w' = promises w /\
  _scheduleTimerTasks (det w') = _scheduleTimerTasks (det w) /\
  (is_Some (attemptMinValue env w) ->
   det w' = det w /\ timers w' = timers w /\
   nextTimerId w' = nextTimerId w).
Proof.
  intros Hnone Hr Hfci w'.
  assert (Hwp :
    wp _checkTTI env
      (fun _ _ => False)
      (fun w' =>
         promises w' = promises w /\
         _scheduleTimerTasks (det w') = _scheduleTimerTasks (det w) /\
         (is_Some (attemptMinValue env w) ->
          det w' = det w /\ timers w' = timers w /\
          nextTimerId w' = nextTimerId w))
      w).
  { remember (attemptMinValue env w) as mv eqn:Hmv.
    rewrite attemptMinValue_eq in Hmv. rewrite attemptResult_eq in Hr.
    wp_run; cbn [truthy negb] in *; simplify_eq;
      try match goal with
          | H : negb (_ =? 0) = false |- _ =>
              apply negb_eqb_false in H; contradiction
          end;
      (split; [reflexivity | split; [reflexivity |]]);
      intros [x Hx]; try discriminate Hx; auto. }
  subst w'. unfold wp, exec, completion in *.
  destruct (_checkTTI env w) as [[[]|[]] w1]; cbn [fst snd];
    [contradiction |].
  split; [reflexivity | exact Hwp].
Qed.

(** *** The configured minimum value *)

(** X13.  The constructor keeps [config.minValue] only when it is a
    non-zero number ([config.minValue || null]): such a value is the
    minimum value of every attempt until [setMinValue] is called, whatever
    [performance.timing] says; with [0] or no value configured the new
    detector has no minimum value of its own, and its attempts take
    [domContentLoadedEventEnd - navigationStart] when that is available
    and [null] otherwise. *)
Theorem configured_minValue config evs env :
  admits (fun c => negb (setsMinValue c)) evs ->
  let w := run evs (newWorld config) in
  (forall v, config_minValue config = Some v -> v <> 0 ->
     attemptMinValue env w = Some v) /\
  (config_minValue config = Some 0 \/ config_minValue config = None ->
     _minValue (det w) = None /\
     attemptMinValue env w =
       if domContentLoadedEventEnd (performance_timing env) =? 0 then None
       else Some (domContentLoadedEventEnd (performance_timing env)
                  - navigationStart (performance_timing env))).
Proof.
  intros Hevs w.
  assert (Hkeep : _minValue (det w) = js_or (config_minValue config) None).
  { subst w.
    apply (run_stable _ (fun w => _minValue (det w) = _)
             (minValue_stable (js_or (config_minValue config) None)) evs);
      [exact Hevs | reflexivity]. }
  split.
  - intros v Hv Hnz. rewrite attemptMinValue_eq, Hkeep, Hv.
    unfold js_or. cbn [truthy].
    destruct (v =? 0) eqn:Hz; [apply Z.eqb_eq in Hz; contradiction |].
    cbn. rewrite Hz. reflexivity.
  - intros Hcfg.
    assert (Hnone : _minValue (det w) = None).
    { rewrite Hkeep. destruct Hcfg as [-> | ->]; reflexivity. }
    split; [exact Hnone |].
    rewrite attemptMinValue_eq, Hnone. cbn [truthy].
    destruct (domContentLoadedEventEnd (performance_timing env) =? 0);
      reflexivity.
Qed.

(** *** A timeout that fires into a successful attempt *)

Lemma single_timer_fired i w : single_timer w -> single_timer (fired i w).
Proof.
  intros Hst j [d Hj]. cbn in *.
  apply lookup_delete_Some in Hj. destruct Hj as [_ Hj].
  apply Hst. eauto.
Qed.

(** X14.  The detection, end to end.  In a world the event loop reaches,
    when an armed timeout fires and the core answers a non-zero number,
    the promise handed out last is the one whose resolver is called: if
    it is pending it is fulfilled with the answer, and afterwards the
    detector is switched off and no timeout is armed. *)
Theorem timer_fires_and_resolves env w (i p : nat) (fci : Z) :
  reachable w ->
  is_Some (timers w !! i) ->
  _firstConsistentlyInteractiveResolver (det w) = Some p ->
  attemptResult env (fired i w) = Some fci -> fci <> 0 ->
  let w' := step env (TimerFires i) w in
  length (promises w) = S p /\
  promises w' = resolvePromise p fci (promises w) /\
  (promises w !! p = Some None -> promises w' !! p = Some (Some fci)) /\
  _scheduleTimerTasks (det w') = false /\ timers w' = ∅.
Proof.
  intros Hr [d Hi] Hres Hfci Hnz w'.
  assert (Hlast : length (promises w) = S p).
  { destruct Hr as (config & evs & ->).
    assert (Hl : resolver_is_latest (run evs (newWorld config))).
    { apply (run_stable anyCall _ resolver_is_latest_stable evs);
        [apply admits_anyCall | reflexivity]. }
    unfold resolver_is_latest in Hl. rewrite Hres in Hl. exact Hl. }
  pose proof (checkTTI_resolving env (fired i w) fci p Hfci Hnz Hres
                (single_timer_fired i w (reachable_single_timer w Hr)))
    as Hwp.
  subst w'. unfold step. cbn [handler]. unfold timerFires. rewrite Hi.
  fold (fired i w). unfold wp in Hwp.
  destruct (_checkTTI env (fired i w)) as [[[]|e] w1]; cbn [snd];
    [| contradiction].
  destruct Hwp as [Hps [Hoff Hts]]. cbn [promises fired] in Hps.
  split; [exact Hlast |]. split; [exact Hps |].
  split; [intros Hp; rewrite Hps; apply resolvePromise_pending, Hp |].
  split; assumption.
Qed.

End Properties.

(** ** The scenarios, run *)

(** C1: the core answers [0], a present result, in an attempt made outside
    Chrome before DOMContentLoaded has ended; the promise stays pending
    and the next check is armed. *)
Lemma checkTTI_ignores_answer_zero :
  let env := loadingNoPaintAt 6000 in
  let w := fired 0 startedEarly in
  let w' := exec (@_checkTTI sampleCore) env w in
  @attemptResult sampleCore env w = Some 0 /\
  _firstConsistentlyInteractiveResolver (det w) = Some 0%nat /\
  promises w !! 0%nat = Some None /\
  promises w' !! 0%nat = Some None /\
  _scheduleTimerTasks (det w') = true /\
  timers w' !! 2%nat = Some 999.
Proof. vm_compute. repeat split; reflexivity. Qed.

(** [started] is a world of the event loop. *)
Lemma started_reachable : @reachable sampleCore started.
Proof.
  exists noConfig, [(loadedAt 0, CallGetFirstConsistentlyInteractive)].
  unfold started. reflexivity.
Qed.

(** C1 at work: the check of [started] six seconds in finds 400, fulfills
    promise [0] with it and leaves no timeout armed. *)
Lemma checkTTI_resolves_and_stops_witness :
  let w' := exec (@_checkTTI sampleCore) (loadedAt 6000) started in
  promises w' !! 0%nat = Some (Some 400) /\ timers w' = ∅ /\
  _scheduleTimerTasks (det w') = false.
Proof.
  destruct (@checkTTI_resolves_and_stops sampleCore (loadedAt 6000)
              started 400 0%nat)
    as (_ & _ & Hpending & _ & Hoff & Hts & _).
  - vm_compute. reflexivity.
  - lia.
  - vm_compute. reflexivity.
  - apply (@reachable_single_timer sampleCore), started_reachable.
  - split; [apply Hpending; vm_compute; reflexivity |]. split; assumption.
Defined.

(** C3: [earliestTime] equal to [_timerActivationTime]; the call is not
    ignored, timeout [0] is cleared and timeout [1] armed in its place. *)
Lemma rescheduleTimer_equal_time_rearms :
  let w := started in
  let w' := exec (rescheduleTimer 0) (loadedAt 5) w in
  _scheduleTimerTasks (det w) = true /\
  _timerActivationTime (det w) = Num 0 /\
  timers w !! 0%nat = Some 0 /\
  timers w' !! 0%nat = None /\
  timers w' !! 1%nat = Some (-6) /\
  _timerId (det w) = Some 0%nat /\ _timerId (det w') = Some 1%nat.
Proof. vm_compute. repeat split; reflexivity. Qed.

(** C3 at work: postponing the check of [started] from 0 to 2000. *)
Lemma rescheduleTimer_enabled_witness :
  let w' := exec (rescheduleTimer 2000) (loadedAt 5) started in
  timers w' = <[1%nat := 1994]> (cleared (Some 0%nat) (timers started)) /\
  _timerActivationTime (det w') = Num 2000.
Proof.
  destruct (rescheduleTimer_enabled (loadedAt 5) started 2000)
    as (_ & _ & Harm).
  - vm_compute. reflexivity.
  - destruct Harm as (Hts & _ & Hact & _); [vm_compute; discriminate |].
    split; [exact Hts | exact Hact].
Defined.

(** C4: the attempt of [startedEarly] in Chrome, six seconds in.  No
    minimum value is available; the check is postponed to 7001, and then
    the attempt goes on: it asks the core with [null] for the minimum
    value, fulfills the promise with the answer and disables the detector,
    which clears the timeout it has just armed. *)
Lemma checkTTI_without_minValue_goes_on :
  let env := loadingAt 6000 in
  let w := fired 0 startedEarly in
  let w' := exec (@_checkTTI sampleCore) env w in
  attemptMinValue env w = None /\
  ESetTimeout 1 999 ∈ trace w' /\
  EComputeFCI 1000 None 0 6001 ∈ trace w' /\
  ECallResolver 0 1000 ∈ trace w' /\
  promises w !! 0%nat = Some None /\
  promises w' !! 0%nat = Some (Some 1000) /\
  timers w' = ∅ /\
  _scheduleTimerTasks (det w') = false.
Proof.
  vm_compute. repeat split; try reflexivity; set_solver.
Qed.

(** C5: an override of [0] is not used; the minimum value comes from
    [performance.timing]. *)
Lemma getMinValue_ignores_zero_override :
  let w := exec (setMinValue 0) (loadedAt 10) started in
  _minValue (det w) = Some 0 /\
  completion _getMinValue (loadedAt 20) w = Normal (Some 400) /\
  EComputeFCI 400 (Some 400) 0 21
  ∈ trace (exec (@_checkTTI sampleCore) (loadedAt 20) w).
Proof.
  vm_compute. repeat split; try reflexivity; set_solver.
Qed.

(** C5 at work: an override of 20000 stored before DOMContentLoaded has
    ended is still the minimum value after a check and the end of loading. *)
Lemma getMinValue_effective_witness :
  let w' :=
    run (core := sampleCore) [(loadingAt 300, TimerFires 0%nat)]
      (exec (setMinValue 20000) (loadingAt 250) startedEarly) in
  _getMinValue (loadedAt 9000) w' = (Normal (Some 20000), w').
Proof.
  destruct (@getMinValue_effective sampleCore (loadingAt 250) (loadedAt 9000)
              startedEarly 20000 [(loadingAt 300, TimerFires 0%nat)])
    as (_ & _ & _ & Hmin & _).
  - lia.
  - repeat constructor.
  - exact Hmin.
Defined.

(** C6: forced after [disable()], the check fulfills the promise. *)
Lemma checkTTI_after_disable_resolves :
  let w := stopped in
  let w' := exec (@_checkTTI sampleCore) (loadedAt 6000) w in
  _scheduleTimerTasks (det w) = false /\
  promises w !! 0%nat = Some None /\
  promises w' !! 0%nat = Some (Some 400).
Proof. vm_compute. repeat split; reflexivity. Qed.

(** C6 at work: the forced check of the disabled [started] keeps the
    detector as it is and calls the resolver with 400. *)
Lemma checkTTI_after_disable_witness :
  det (exec (@_checkTTI sampleCore) (loadedAt 6000)
         (run (core := sampleCore) [] (exec disable (loadedAt 10) started)))
  = det (run (core := sampleCore) [] (exec disable (loadedAt 10) started)) /\
  promises (exec (@_checkTTI sampleCore) (loadedAt 6000)
              (run (core := sampleCore) []
                 (exec disable (loadedAt 10) started)))
  = resolvePromise 0 400
      (promises (run (core := sampleCore) []
                   (exec disable (loadedAt 10) started))).
Proof.
  destruct (@checkTTI_after_disable sampleCore (loadedAt 10) started []
              (loadedAt 6000))
    as (Hdet & _ & _ & _ & Hres & _).
  - constructor.
  - destruct (Hres 400 0%nat) as [Hps _].
    + vm_compute. reflexivity.
    + lia.
    + vm_compute. reflexivity.
    + split; [exact Hdet | exact Hps].
Defined.


(** C8: a second call on an enabled detector clears timeout [0] and arms
    timeout [1]; and a call that enables the detector again after a retry
    arms nothing, the activation time being above [0]. *)
Lemma startSchedulingTimerTasks_twice_rearms :
  let w' := exec startSchedulingTimerTasks (loadedAt 5) started in
  let again :=
    run (core := sampleCore)
      [(loadedAt 1500, CallDisable);
       (loadedAt 1600, CallStartSchedulingTimerTasks)] retried in
  (_scheduleTimerTasks (det started) = true /\
   timers started !! 0%nat = Some 0 /\
   timers w' !! 0%nat = None /\ timers w' !! 1%nat = Some (-6) /\
   _timerId (det w') = Some 1%nat) /\
  (_scheduleTimerTasks (det again) = true /\
   _timerActivationTime (det again) = Num 2002 /\
   timers again = ∅).
Proof. vm_compute. repeat split; reflexivity. Qed.

(** C9 at work: request [r1] completes, twice. *)
Lemma afterRequest_idempotent_witness :
  let w' :=
    exec (_afterJSInitiatedRequestCallback "r1") (loadedAt 30) requesting in
  _incompleteJSInitiatedRequestStartTimes (det requesting) = [("r1", 21)] /\
  _incompleteJSInitiatedRequestStartTimes (det w') = [] /\
  _incompleteJSInitiatedRequestStartTimes
    (det (exec (_afterJSInitiatedRequestCallback "r1") (loadedAt 40) w'))
    = [].
Proof.
  destruct (afterRequest_idempotent (loadedAt 30) (loadedAt 40) requesting "r1")
    as (_ & _ & _ & _ & Hfilter & _ & _ & Htwice & _).
  - vm_compute. apply NoDup_singleton.
  - split; [vm_compute; reflexivity |]. split; [exact Hfilter |].
    rewrite Htwice. exact Hfilter.
Defined.

(** C10 at work: after a second call on [started], the check that
    fulfills promise [1] leaves promise [0] pending. *)
Lemma earlier_promises_stay_pending_witness :
  let w' :=
    exec getFirstConsistentlyInteractive (loadedAt 50) started in
  _firstConsistentlyInteractiveResolver (det w') = Some 1%nat /\
  promises
    (run (core := sampleCore) [(loadedAt 6000, TimerFires 1%nat)] w')
    !! 0%nat = Some None.
Proof.
  destruct (@earlier_promises_stay_pending sampleCore (loadedAt 50) started
              0%nat)
    as (_ & Hres & _ & _ & Hpending).
  - vm_compute. lia.
  - split; [exact Hres |]. apply Hpending. vm_compute. reflexivity.
Defined.

(** ** Further scenarios, run *)

(** X1 at work: calls on a detector that was never enabled. *)
Lemma no_timer_before_enable_witness :
  let w :=
    run (core := sampleCore)
      [(loadedAt 0, CallRescheduleTimer 5000);
       (loadedAt 10, CallCheckTTI);
       (loadedAt 20, CallBeforeRequest "r1");
       (loadedAt 30, CallDisable)]
      (newWorld noConfig) in
  _scheduleTimerTasks (det w) = false /\ timers w = ∅ /\
  _timerId (det w) = None /\
  _timerActivationTime (det w) = NegInfinity.
Proof.
  apply (@no_timer_before_enable sampleCore noConfig).
  repeat constructor.
Defined.

(** [retried] is a world of the event loop. *)
Lemma retried_reachable : @reachable sampleCore retried.
Proof.
  exists noConfig,
    [(loadedAt 0, CallGetFirstConsistentlyInteractive);
     (loadedAt 1000, TimerFires 0%nat)].
  vm_compute. reflexivity.
Qed.

(** [requesting] is a world of the event loop. *)
Lemma requesting_reachable : @reachable sampleCore requesting.
Proof.
  exists noConfig,
    [(loadedAt 0, CallGetFirstConsistentlyInteractive);
     (loadedAt 20, CallBeforeRequest "r1")].
  vm_compute. reflexivity.
Qed.

(** X2 at work: after the first retry only timeout [1] is armed. *)
Lemma timer_discipline_reachable_witness :
  (forall i, is_Some (timers retried !! i) ->
     _timerId (det retried) = Some i /\
     _scheduleTimerTasks (det retried) = true) /\
  (forall i j, is_Some (timers retried !! i) ->
     is_Some (timers retried !! j) -> i = j) /\
  (_scheduleTimerTasks (det retried) = false -> timers retried = ∅).
Proof.
  exact (@timer_discipline_reachable sampleCore retried retried_reachable).
Defined.

(** X5 at work: one request in flight, one key, one start time. *)
Lemma requests_keys_unique_witness :
  NoDup (JSMap.keys (_incompleteJSInitiatedRequestStartTimes (det requesting)))
  /\
  (forall starts,
     completion _incompleteRequestStarts (loadedAt 30) requesting
       = Normal starts ->
     length starts
       = length (JSMap.keys
                   (_incompleteJSInitiatedRequestStartTimes (det requesting)))).
Proof.
  exact (@requests_keys_unique sampleCore (loadedAt 30) requesting
           requesting_reachable).
Defined.

(** X6 at work: the resolver stored in [started] is the one of promise [0]. *)
Lemma resolver_is_latest_reachable_witness :
  match _firstConsistentlyInteractiveResolver (det started) with
  | None => promises started = []
  | Some p => length (promises started) = S p /\
              is_Some (promises started !! p)
  end.
Proof.
  exact (@resolver_is_latest_reachable sampleCore started started_reachable).
Defined.

(** X8 at work: the promise is requested while the document is loading,
    the detector is disabled, then the document loads. *)
Lemma disable_keeps_load_listener_witness :
  let w :=
    run (core := sampleCore)
      [(loadingAt 100, CallGetFirstConsistentlyInteractive)]
      (newWorld noConfig) in
  let w' := exec loadEvent (loadedAt 900) (exec disable (loadingAt 300) w) in
  _scheduleTimerTasks (det w') = true /\
  exists i, _timerId (det w') = Some i /\ is_Some (timers w' !! i).
Proof.
  destruct (disable_keeps_load_listener (loadingAt 300) (loadedAt 900)
              (run (core := sampleCore)
                 [(loadingAt 100, CallGetFirstConsistentlyInteractive)]
                 (newWorld noConfig)))
    as [Hon Harmed].
  - vm_compute. lia.
  - split; [exact Hon |]. apply Harmed. vm_compute. reflexivity.
Defined.

(** X9 at work: [retried] is stopped and started again. *)
Lemma restart_arms_nothing_witness :
  let w' :=
    exec startSchedulingTimerTasks (loadedAt 1600)
      (exec disable (loadedAt 1500) retried) in
  _scheduleTimerTasks (det w') = true /\ timers w' = ∅ /\
  (loadListeners retried = 0%nat ->
   forall evs, admits hostDriven evs ->
     run (core := sampleCore) evs w' = w').
Proof.
  apply (@restart_arms_nothing sampleCore (loadedAt 1500) (loadedAt 1600)
           retried).
  - exact retried_reachable.
  - vm_compute. auto.
Defined.

(** X10 at work: the first check of [started], one second in, arms the
    next one for 2002. *)
Lemma failed_attempt_retries_witness :
  _timerActivationTime
    (det (exec (@_checkTTI sampleCore) (loadedAt 1000) (fired 0 started)))
  = Num (performance_now (loadedAt 1000) (S (clockReads (fired 0 started)))
         + 1000) /\
  promises (exec (@_checkTTI sampleCore) (loadedAt 1000) (fired 0 started))
  = promises (fired 0 started).
Proof.
  destruct (@failed_attempt_retries sampleCore (loadedAt 1000)
              (fired 0 started) 400)
    as (_ & Hps & _ & Harm & _).
  - vm_compute. reflexivity.
  - vm_compute. reflexivity.
  - vm_compute. reflexivity.
  - destruct Harm as (_ & _ & Hact); [vm_compute; discriminate |].
    split; [exact Hact | exact Hps].
Defined.

(** The clock of [loadedAt] does not run backwards. *)
Lemma loadedAt_monotone t : monotone_clock (loadedAt t).
Proof. intros i j Hij. cbn. lia. Qed.

(** X11 at work: the same check leaves the next one at 2002 or later. *)
Lemma failed_attempt_postpones_witness :
  let env := loadedAt 1000 in
  let w := fired 0 started in
  let currentTime := performance_now env (clockReads w) in
  let w' := exec (@_checkTTI sampleCore) env w in
  completion (@_checkTTI sampleCore) env w = Normal tt /\
  promises w' = promises w /\
  _scheduleTimerTasks (det w') = true /\
  number_le (Num (currentTime + 1000)) (_timerActivationTime (det w')) /\
  (attemptMinValue env w = None ->
   number_le
     (Num (Z.max (@attemptLastBusy sampleCore w + 5000) (currentTime + 1000)))
     (_timerActivationTime (det w'))).
Proof.
  apply (@failed_attempt_postpones sampleCore (loadedAt 1000)
           (fired 0 started)).
  - vm_compute. reflexivity.
  - apply loadedAt_monotone.
  - vm_compute. reflexivity.
Defined.

(** X12 at work: the check of [unrequested] six seconds in throws and
    leaves the detector enabled with no timeout armed. *)
Lemma attempt_without_resolver_throws_witness :
  completion (@_checkTTI sampleCore) (loadedAt 6000) (fired 0 unrequested)
  = Throw TypeError /\
  timers (exec (@_checkTTI sampleCore) (loadedAt 6000) (fired 0 unrequested))
  = timers (fired 0 unrequested).
Proof.
  destruct (@attempt_without_resolver_throws sampleCore (loadedAt 6000)
              (fired 0 unrequested) 400)
    as (Hthrow & _ & _ & Hframe).
  - vm_compute. reflexivity.
  - vm_compute. reflexivity.
  - lia.
  - destruct Hframe as (_ & Hts & _); [vm_compute; eauto |].
    split; [exact Hthrow | exact Hts].
Defined.

(** X13 at work: a detector configured with 20000, enabled before
    DOMContentLoaded has ended, after its first check. *)
Lemma configured_minValue_witness :
  attemptMinValue (loadedAt 9000)
    (run (core := sampleCore)
       [(loadingAt 100, CallGetFirstConsistentlyInteractive);
        (loadingAt 200, CallStartSchedulingTimerTasks);
        (loadingAt 300, TimerFires 0%nat)]
       (newWorld config20s))
  = Some 20000.
Proof.
  destruct (@configured_minValue sampleCore config20s
              [(loadingAt 100, CallGetFirstConsistentlyInteractive);
               (loadingAt 200, CallStartSchedulingTimerTasks);
               (loadingAt 300, TimerFires 0%nat)]
              (loadedAt 9000))
    as [Hv _].
  - repeat constructor.
  - apply Hv; [reflexivity | lia].
Defined.

(** X14 at work: timeout [0] of [started] fires six seconds in. *)
Lemma timer_fires_and_resolves_witness :
  promises (step (core := sampleCore) (loadedAt 6000) (TimerFires 0) started)
    !! 0%nat = Some (Some 400) /\
  timers (step (core := sampleCore) (loadedAt 6000) (TimerFires 0) started)
    = ∅.
Proof.
  destruct (@timer_fires_and_resolves sampleCore (loadedAt 6000) started
              0%nat 0%nat 400)
    as (_ & _ & Hp & _ & Hts).
  - exact started_reachable.
  - vm_compute. eauto.
  - vm_compute. reflexivity.
  - vm_compute. reflexivity.
  - lia.
  - split; [apply Hp; vm_compute; reflexivity | exact Hts].
Defined.
